(** * NewsTrace scraper: a shallow embedding of [Backend/scrapper.py]

    The development follows the layout of the Python module: text
    utilities, the date preference rule, beat canonicalisation, author
    cleaning, the profile aggregator with its finalisation step, the
    crawler's link filter and the checkpoint writer.

    Python [str] values are lists of Unicode code points.  Whitespace
    ([str.isspace], the regex class [\s]) is the full Unicode set; case
    mapping ([lower], [title], [capitalize]) is the ASCII one and leaves
    every other code point alone: statements that go through a case
    mapping are stated for ASCII text.  The digit class [\d] of a pattern
    and the digits that [int] reads are the decimal digits of Unicode
    14.0, the table of Python 3.11. *)

From Stdlib Require Import ZArith NArith List Bool Lia String Ascii.
From Stdlib Require Import Sorting.Sorted Sorting.Permutation.
Import ListNotations.

(* ================================================================== *)
(** ** Python strings *)
(* ================================================================== *)

Definition char := N.
Definition str := list char.

(** A string literal of the source. *)
Definition lit (s : string) : str :=
  List.map N_of_ascii (list_ascii_of_string s).

Open Scope N_scope.

Definition in_range (lo hi c : char) : bool := (lo <=? c) && (c <=? hi).

Definition is_ascii (c : char) : bool := c <? 128.

(** [Py_UNICODE_ISSPACE]: what [str.strip], [str.split] and [\s] use. *)
Definition is_space (c : char) : bool :=
  in_range 9 13 c || in_range 28 31 c || (c =? 32) || (c =? 133) ||
  (c =? 160) || (c =? 5760) || in_range 8192 8202 c || (c =? 8232) ||
  (c =? 8233) || (c =? 8239) || (c =? 8287) || (c =? 12288).

Definition is_upper (c : char) : bool := in_range 65 90 c.
Definition is_lower (c : char) : bool := in_range 97 122 c.
Definition is_cased (c : char) : bool := is_upper c || is_lower c.
Definition is_digit (c : char) : bool := in_range 48 57 c.

(** The decimal digits of Unicode come in runs of ten, valued 0 to 9;
    these are the code points at which the runs start. *)
Definition decimal_starts : list char :=
  [48; 1632; 1776; 1984; 2406; 2534; 2662; 2790; 2918; 3046; 3174; 3302;
   3430; 3558; 3664; 3792; 3872; 4160; 4240; 6112; 6160; 6470; 6608; 6784;
   6800; 6992; 7088; 7232; 7248; 42528; 43216; 43264; 43472; 43504; 43600;
   44016; 65296; 66720; 68912; 69734; 69872; 69942; 70096; 70384; 70736;
   70864; 71248; 71360; 71472; 71904; 72016; 72784; 73040; 73120; 92768;
   92864; 93008; 120782; 120792; 120802; 120812; 120822; 123200; 123632;
   125264; 130032].

(** The run of ten that [c] belongs to, if it is a decimal digit. *)
Definition decimal_run (c : char) : option char :=
  find (fun z => in_range z (z + 9) c) decimal_starts.

(** The regex class [\d] on a [str] pattern. *)
Definition is_decimal (c : char) : bool :=
  match decimal_run c with
  | Some _ => true
  | None => false
  end.

Definition lower_c (c : char) : char := if is_upper c then c + 32 else c.
Definition upper_c (c : char) : char := if is_lower c then c - 32 else c.

Definition lower (s : str) : str := List.map lower_c s.

Fixpoint str_eqb (a b : str) : bool :=
  match a, b with
  | [], [] => true
  | x :: a', y :: b' => (x =? y) && str_eqb a' b'
  | _, _ => false
  end.

(** [a < b] on strings: code point by code point, a proper prefix first. *)
Fixpoint str_ltb (a b : str) : bool :=
  match a, b with
  | _, [] => false
  | [], _ :: _ => true
  | x :: a', y :: b' => (x <? y) || ((x =? y) && str_ltb a' b')
  end.

Definition str_in (x : str) (l : list str) : bool := existsb (str_eqb x) l.

Fixpoint starts_with (p s : str) : bool :=
  match p, s with
  | [], _ => true
  | x :: p', y :: s' => (x =? y) && starts_with p' s'
  | _ :: _, [] => false
  end.

(** [k in s] for strings: [k] occurs as a contiguous block of [s]. *)
Fixpoint contains (k s : str) : bool :=
  starts_with k s ||
  match s with
  | [] => false
  | _ :: s' => contains k s'
  end.

Fixpoint lstrip (s : str) : str :=
  match s with
  | [] => []
  | c :: r => if is_space c then lstrip r else s
  end.

Fixpoint rstrip (s : str) : str :=
  match s with
  | [] => []
  | c :: r =>
      match rstrip r with
      | [] => if is_space c then [] else [c]
      | r' => c :: r'
      end
  end.

Definition strip (s : str) : str := rstrip (lstrip s).

(** A regex substitution of one space for [cls+]: every maximal run of
    characters of the class becomes one space.  [in_run] records that the
    previous character was in the class. *)
Fixpoint sub_runs (cls : char -> bool) (in_run : bool) (s : str) : str :=
  match s with
  | [] => []
  | c :: r =>
      if cls c
      then (if in_run then sub_runs cls true r else 32 :: sub_runs cls true r)
      else c :: sub_runs cls false r
  end.

(** The substitution of one space for [\s+]. *)
Definition collapse_ws (s : str) : str := sub_runs is_space false s.

(** [str.title()]: a cased character that follows a cased one is lowered,
    any other is raised. *)
Fixpoint title_from (prev_cased : bool) (s : str) : str :=
  match s with
  | [] => []
  | c :: r =>
      (if prev_cased then lower_c c else upper_c c) :: title_from (is_cased c) r
  end.

Definition title (s : str) : str := title_from false s.

(** [str.capitalize()]. *)
Definition capitalize (s : str) : str :=
  match s with
  | [] => []
  | c :: r => upper_c c :: lower r
  end.

(** [str.split()] with no argument: the maximal blocks of non-whitespace.
    [cur] is the block being read, reversed. *)
Fixpoint split_from (cur : str) (s : str) : list str :=
  match s with
  | [] => match cur with [] => [] | _ => [rev cur] end
  | c :: r =>
      if is_space c
      then match cur with
           | [] => split_from [] r
           | _ => rev cur :: split_from [] r
           end
      else split_from (c :: cur) r
  end.

Definition split_ws (s : str) : list str := split_from [] s.

(* ================================================================== *)
(** ** [normalize_name] *)
(* ================================================================== *)

(** The class of the by-line prefix: colon or whitespace. *)
Definition is_colon_space (c : char) : bool := (c =? 58) || is_space c.

Fixpoint drop_colon_space (s : str) : str :=
  match s with
  | [] => []
  | c :: r => if is_colon_space c then drop_colon_space r else s
  end.

(** Does the by-line pattern (B, y, then one or more of colon or
    whitespace, anchored at the start, case-insensitive) match? *)
Definition has_by_prefix (s : str) : bool :=
  match s with
  | b :: y :: c :: _ =>
      (lower_c b =? 98) && (lower_c y =? 121) && is_colon_space c
  | _ => false
  end.

(** Removal of the by-line prefix: the anchor lets the pattern match at
    the start only, and the class is matched greedily. *)
Definition strip_by (s : str) : str :=
  if has_by_prefix s then drop_colon_space (skipn 2 s) else s.

(** The zero-width class of the source: U+200B, U+200C, U+200D. *)
Definition is_zero_width (c : char) : bool := in_range 8203 8205 c.

Definition remove_zero_width (s : str) : str :=
  filter (fun c => negb (is_zero_width c)) s.

(** The punctuation class of the source: full stop, comma, slash, round
    and square brackets, asterisk, straight and curly double quotes,
    apostrophe and backtick. *)
Definition is_name_punct (c : char) : bool :=
  existsb (N.eqb c) [46; 44; 47; 40; 41; 91; 93; 42; 34; 8220; 8221; 39; 96].

Definition punct_to_space (s : str) : str :=
  List.map (fun c => if is_name_punct c then 32 else c) s.

(** The text just before the length test and [title()]. *)
Definition name_core (name : str) : str :=
  strip (collapse_ws (punct_to_space (remove_zero_width (strip_by (strip name))))).

Definition normalize_name (name : str) : str :=
  match name with
  | [] => []
  | _ =>
      let s := name_core name in
      if (List.length s <=? 1)%nat then [] else title s
  end.

(* ================================================================== *)
(** ** [_prefer_newer] *)
(* ================================================================== *)

Record date := { year : Z; month : Z; day : Z }.

Definition is_leap (y : Z) : bool :=
  ((y mod 4 =? 0) && (negb (y mod 100 =? 0) || (y mod 400 =? 0)))%Z.

Definition days_in_month (y m : Z) : Z :=
  (if m =? 2 then (if is_leap y then 29 else 28)
   else if (m =? 4) || (m =? 6) || (m =? 9) || (m =? 11) then 30
   else 31)%Z.

(** [datetime.date(y, m, d)]: [None] stands for the [ValueError] the
    constructor raises, which [parse_iso] turns into [None]. *)
Definition make_date (y m d : Z) : option date :=
  if ((1 <=? y) && (y <=? 9999) && (1 <=? m) && (m <=? 12) &&
      (1 <=? d) && (d <=? days_in_month y m))%Z
  then Some {| year := y; month := m; day := d |}
  else None.

(** [cd > ed] on dates compares year, then month, then day. *)
Definition date_gtb (a b : date) : bool :=
  ((year b <? year a) ||
   ((year b =? year a) &&
    ((month b <? month a) || ((month b =? month a) && (day b <? day a)))))%Z.

(** The value that [int] gives a decimal digit. *)
Definition digit_val (c : char) : Z :=
  match decimal_run c with
  | Some z => Z.of_N (c - z)
  | None => 0%Z
  end.

(** [int] of a run of digits. *)
Definition int_of_digits (ds : list char) : Z :=
  fold_left (fun acc c => (10 * acc + digit_val c)%Z) ds 0%Z.

Definition is_date_sep (c : char) : bool := (c =? 45) || (c =? 47).

(** The last group, a greedy run of one or two digits. *)
Definition match_day (s : str) : option (list char) :=
  match s with
  | d1 :: d2 :: _ =>
      if is_decimal d1 then Some (if is_decimal d2 then [d1; d2] else [d1]) else None
  | [d1] => if is_decimal d1 then Some [d1] else None
  | [] => None
  end.

(** A separator, then the last group. *)
Definition match_sep_day (s : str) : option (list char) :=
  match s with
  | c :: r => if is_date_sep c then match_day r else None
  | [] => None
  end.

(** The middle group and what follows: two digits are tried first, one
    digit when that fails. *)
Definition match_month_rest (s : str) : option (list char * list char) :=
  let two :=
    match s with
    | m1 :: m2 :: r =>
        if is_decimal m1 && is_decimal m2
        then option_map (fun dd => ([m1; m2], dd)) (match_sep_day r)
        else None
    | _ => None
    end in
  match two with
  | Some g => Some g
  | None =>
      match s with
      | m1 :: r =>
          if is_decimal m1
          then option_map (fun dd => ([m1], dd)) (match_sep_day r)
          else None
      | [] => None
      end
  end.

(** The whole pattern, four digits, separator, one or two digits,
    separator, one or two digits, anchored at the head of [s]. *)
Definition match_ymd (s : str) : option (list char * list char * list char) :=
  match s with
  | y1 :: y2 :: y3 :: y4 :: sep :: r =>
      if is_decimal y1 && is_decimal y2 && is_decimal y3 && is_decimal y4 &&
         is_date_sep sep
      then option_map (fun g => ([y1; y2; y3; y4], fst g, snd g))
                      (match_month_rest r)
      else None
  | _ => None
  end.

(** [re.search]: the leftmost position where the pattern matches. *)
Fixpoint search_ymd (s : str) : option (list char * list char * list char) :=
  match match_ymd s with
  | Some g => Some g
  | None =>
      match s with
      | [] => None
      | _ :: r => search_ymd r
      end
  end.

Definition parse_iso (d : str) : option date :=
  match search_ymd d with
  | Some (y, mn, dd) =>
      make_date (int_of_digits y) (int_of_digits mn) (int_of_digits dd)
  | None => None
  end.

(** A date string that is empty or the sentinel. *)
Definition is_unknown (d : str) : bool :=
  match d with
  | [] => true
  | _ => str_eqb d (lit "Unknown")
  end.

Definition _prefer_newer (existing_date candidate_date : str) : bool :=
  if is_unknown candidate_date then false
  else if is_unknown existing_date then true
  else match parse_iso candidate_date, parse_iso existing_date with
       | Some cd, Some ed => date_gtb cd ed
       | _, _ => (List.length existing_date <? List.length candidate_date)%nat
       end.

(** The proleptic Gregorian ordinal of a date, day 1 being 0001-01-01:
    the calendar's own measure of which of two days comes later. *)
Definition days_before_year (y : Z) : Z :=
  (let p := y - 1 in p * 365 + p / 4 - p / 100 + p / 400)%Z.

Definition DAYS_BEFORE_MONTH : list Z :=
  [-1; 0; 31; 59; 90; 120; 151; 181; 212; 243; 273; 304; 334]%Z.

Definition days_before_month (y m : Z) : Z :=
  (nth (Z.to_nat m) DAYS_BEFORE_MONTH 0 +
   (if (2 <? m) && is_leap y then 1 else 0))%Z.

Definition toordinal (d : date) : Z :=
  (days_before_year (year d) + days_before_month (year d) (month d) +
   day d)%Z.

(* ================================================================== *)
(** ** [normalize_beat] *)
(* ================================================================== *)

(** The separator class of the source: whitespace, bar, slash, comma and
    ampersand. *)
Definition is_beat_sep (c : char) : bool :=
  is_space c || (c =? 124) || (c =? 47) || (c =? 44) || (c =? 38).

(** The class kept by the second substitution: a-z, 0-9 and space. *)
Definition is_beat_char (c : char) : bool :=
  is_lower c || is_digit c || (c =? 32).

Definition mapping : list (str * str) :=
  [ (lit "breaking news", lit "Breaking");
    (lit "breaking world news", lit "Breaking");
    (lit "breaking news india", lit "Breaking");
    (lit "world news", lit "World");
    (lit "world", lit "World");
    (lit "politics", lit "Politics");
    (lit "business", lit "Business");
    (lit "economy", lit "Business");
    (lit "technology", lit "Technology");
    (lit "tech", lit "Technology");
    (lit "sport", lit "Sports");
    (lit "sports", lit "Sports");
    (lit "editorial", lit "Editorial");
    (lit "opinion", lit "Opinion");
    (lit "analysis", lit "Analysis");
    (lit "entertainment", lit "Entertainment");
    (lit "lifestyle", lit "Lifestyle");
    (lit "science", lit "Science");
    (lit "health", lit "Health");
    (lit "travel", lit "Travel");
    (lit "news", lit "News") ].

(** The loop over [mapping.items()]: the first key contained in [s]. *)
Fixpoint first_mapped (m : list (str * str)) (s : str) : option str :=
  match m with
  | [] => None
  | (k, v) :: m' => if contains k s then Some v else first_mapped m' s
  end.

Definition normalize_beat (raw : str) : str :=
  match raw with
  | [] => lit "Unknown"
  | _ =>
      let s := lower (strip raw) in
      let s := sub_runs is_beat_sep false s in
      let s := filter is_beat_char s in
      match first_mapped mapping s with
      | Some v => v
      | None =>
          match split_ws s with
          | [] => lit "Unknown"
          | token :: _ =>
              match token with
              | [] => lit "Unknown"
              | _ => capitalize token
              end
          end
      end
  end.

(* ================================================================== *)
(** ** [extract_authors]: the cleaning loop *)
(* ================================================================== *)

Definition placeholders : list str :=
  [lit "contributors"; lit "staff"; lit "editorial"; lit "team"; lit "s"].

(** One iteration of the loop over the collected names: [None] is the
    [continue]. *)
Definition clean_author (a : str) : option str :=
  let s := strip (collapse_ws a) in
  if (List.length s <? 2)%nat then None
  else if str_in (lower s) placeholders then None
  else Some s.

Fixpoint cleaned_authors (authors : list str) : list str :=
  match authors with
  | [] => []
  | a :: r =>
      match clean_author a with
      | Some s => s :: cleaned_authors r
      | None => cleaned_authors r
      end
  end.

(** [extract_authors], from the names its four markup queries collected
    (the set [authors], in the order the loop visits it). *)
Definition extract_authors (authors : list str) : list str :=
  match cleaned_authors authors with
  | [] => [lit "Unknown"]
  | cleaned => cleaned
  end.

(* ================================================================== *)
(** ** Dictionaries in insertion order *)
(* ================================================================== *)

Section Dict.
Variable V : Type.

Definition dict := list (str * V).

Fixpoint dict_get (k : str) (d : dict) : option V :=
  match d with
  | [] => None
  | (k', v) :: d' => if str_eqb k k' then Some v else dict_get k d'
  end.

(** [d[k] = v]: an existing key keeps its place, a new one goes last. *)
Fixpoint dict_set (k : str) (v : V) (d : dict) : dict :=
  match d with
  | [] => [(k, v)]
  | (k', v') :: d' =>
      if str_eqb k k' then (k', v) :: d' else (k', v') :: dict_set k v d'
  end.

(** [del d[k]] *)
Fixpoint dict_remove (k : str) (d : dict) : dict :=
  match d with
  | [] => []
  | (k', v') :: d' =>
      if str_eqb k k' then d' else (k', v') :: dict_remove k d'
  end.

End Dict.

Arguments dict_get {V} k d.
Arguments dict_set {V} k v d.
Arguments dict_remove {V} k d.

(* ================================================================== *)
(** ** The profile map and [_finalize_profiles] *)
(* ================================================================== *)

Open Scope Z_scope.

(** A value of [profiles_map].  [beat_counts] is [None] once
    [_finalize_profiles] has popped the key from the dictionary. *)
Record entry := {
  name : str;
  beat_counts : option (dict Z);
  beat : str;
  latest_article : str;
  article_url : str;
  publication_date : str;
  articles_count : Z
}.

(** A dictionary of the list that [_finalize_profiles] returns. *)
Record profile := {
  p_name : str;
  p_beat : str;
  p_latest_article : str;
  p_article_url : str;
  p_publication_date : str;
  p_articles_count : Z
}.

Definition set_articles_count (n : Z) (e : entry) : entry :=
  {| name := name e; beat_counts := beat_counts e; beat := beat e;
     latest_article := latest_article e; article_url := article_url e;
     publication_date := publication_date e; articles_count := n |}.

Definition set_beat_counts (bc : option (dict Z)) (e : entry) : entry :=
  {| name := name e; beat_counts := bc; beat := beat e;
     latest_article := latest_article e; article_url := article_url e;
     publication_date := publication_date e;
     articles_count := articles_count e |}.

Definition set_beat (b : str) (e : entry) : entry :=
  {| name := name e; beat_counts := beat_counts e; beat := b;
     latest_article := latest_article e; article_url := article_url e;
     publication_date := publication_date e;
     articles_count := articles_count e |}.

Definition set_latest (pub_date title url : str) (e : entry) : entry :=
  {| name := name e; beat_counts := beat_counts e; beat := beat e;
     latest_article := title; article_url := url;
     publication_date := pub_date; articles_count := articles_count e |}.

(** [x or 'Unknown'] *)
Definition or_unknown (x : str) : str :=
  match x with
  | [] => lit "Unknown"
  | _ => x
  end.

Definition is_empty (x : str) : bool :=
  match x with
  | [] => true
  | _ => false
  end.

Definition blacklist : list str :=
  [lit "contributors"; lit "staff"; lit "editorial"; lit "team";
   lit "unknown"; lit "s"].

(** [max(items, key=lambda x: x[1])]: the first item of greatest count. *)
Fixpoint max_by_count (best : str * Z) (items : list (str * Z)) : str * Z :=
  match items with
  | [] => best
  | x :: r => max_by_count (if snd best <? snd x then x else best) r
  end.

(** One iteration of the loop of [_finalize_profiles]: the entry as the
    iteration leaves it in [profiles_map], and the dictionary appended to
    [profiles], if any. *)
Definition finalize_entry (v : entry) : entry * option profile :=
  let name_low := lower (strip (name v)) in
  if is_empty name_low || str_in name_low blacklist then (v, None)
  else
    let v1 :=
      match beat_counts v with
      | Some (x :: r) => set_beat (or_unknown (fst (max_by_count x r))) v
      | _ => v
      end in
    let v2 := set_beat_counts None v1 in
    (v2, Some {| p_name := name v2;
                 p_beat := beat v2;
                 p_latest_article := or_unknown (latest_article v2);
                 p_article_url := article_url v2;
                 p_publication_date := publication_date v2;
                 p_articles_count := articles_count v2 |}).

Fixpoint finalize_loop (pm : dict entry) : dict entry * list profile :=
  match pm with
  | [] => ([], [])
  | (k, v) :: rest =>
      let (v', out) := finalize_entry v in
      let (rest', profiles) := finalize_loop rest in
      ((k, v') :: rest',
       match out with
       | Some p => p :: profiles
       | None => profiles
       end)
  end.

(** The sort key [(-articles_count, name)] and the order of tuples. *)
Definition key_ltb (a b : profile) : bool :=
  (- p_articles_count a <? - p_articles_count b) ||
  ((- p_articles_count a =? - p_articles_count b) &&
   str_ltb (p_name a) (p_name b)).

(** [list.sort] is stable: an element goes before the first one that is
    not strictly smaller, and elements are inserted from the right. *)
Fixpoint insert_sorted (x : profile) (l : list profile) : list profile :=
  match l with
  | [] => [x]
  | y :: r => if key_ltb y x then y :: insert_sorted x r else x :: l
  end.

Fixpoint sort_profiles (l : list profile) : list profile :=
  match l with
  | [] => []
  | x :: r => insert_sorted x (sort_profiles r)
  end.

(** [_finalize_profiles]: the profile map as the call leaves it, and the
    returned list. *)
Definition _finalize_profiles (pm : dict entry) : dict entry * list profile :=
  let (pm', profiles) := finalize_loop pm in
  let profiles := sort_profiles profiles in
  (pm', firstn (Nat.max 30 (List.length profiles)) profiles).

(* ================================================================== *)
(** ** [extract_profiles] *)
(* ================================================================== *)

(** What the extraction helpers read off a fetched page. *)
Record page := {
  hrefs : list str;     (* the [href] of every anchor, in document order *)
  authors : list str;   (* the set [authors] filled by [extract_authors] *)
  page_title : str;     (* [extract_title] *)
  pub_date : str;       (* [extract_pub_date] *)
  section : str         (* [extract_section] *)
}.

Inductive response :=
| Failed                               (* the request raised *)
| Http (status_code : Z) (soup : page).

(** The site being crawled. *)
Record site := {
  allowed_by_robots : str -> bool;
  get : str -> response
}.

Record snapshot := {
  outlet_name : option str;
  website : str;
  profiles : list profile
}.

Inductive event :=
| RobotsCheck (url : str)
| Get (url : str)
| WriteJson (payload : snapshot).

(** How the body of a [try] ended. *)
Inductive outcome := Done | Raised.

(** The body of the loop over [authors], for one author. *)
Definition merge_author (url title pub_date section : str) (author : str)
    (pm : dict entry) : dict entry * outcome :=
  let norm := normalize_name author in
  if is_empty norm then (pm, Done)
  else
    let key := lower norm in
    match dict_get key pm with
    | None =>
        (dict_set key
           {| name := norm;
              beat_counts :=
                Some (if is_empty section then [] else [(section, 1)]);
              beat := or_unknown section;
              latest_article := or_unknown title;
              article_url := url;
              publication_date := or_unknown pub_date;
              articles_count := 1 |} pm, Done)
    | Some entry0 =>
        let entry1 := set_articles_count (articles_count entry0 + 1) entry0 in
        let tallied :=
          if is_empty section then Some entry1
          else
            match beat_counts entry1 with
            | None => None                     (* KeyError: 'beat_counts' *)
            | Some bc =>
                let n := match dict_get section bc with
                         | Some n => n
                         | None => 0
                         end in
                Some (set_beat_counts (Some (dict_set section (n + 1) bc))
                                      entry1)
            end in
        match tallied with
        | None => (dict_set key entry1 pm, Raised)
        | Some entry2 =>
            let entry3 :=
              if _prefer_newer (publication_date entry2) pub_date
              then set_latest pub_date title url entry2
              else entry2 in
            (dict_set key entry3 pm, Done)
        end
    end.

Fixpoint merge_authors (url title pub_date section : str)
    (l : list str) (pm : dict entry) : dict entry * outcome :=
  match l with
  | [] => (pm, Done)
  | author :: r =>
      match merge_author url title pub_date section author pm with
      | (pm', Raised) => (pm', Raised)
      | (pm', Done) => merge_authors url title pub_date section r pm'
      end
  end.

Definition WRITE_PROGRESS_EVERY : Z := 5.

(** The state of the loop of [extract_profiles], with the requests and
    writes issued so far. *)
Record run := {
  profiles_map : dict entry;
  processed : Z;
  trace : list event
}.

Section Pipeline.
Variable OUTLET : option str.
Variable web : site.
Variable base_url : str.

(** One iteration of the loop over [urls], after the [min_profiles]
    test. *)
Definition visit (url : str) (st : run) : run :=
  let tr := trace st ++ [RobotsCheck url] in
  if negb (allowed_by_robots web url)
  then {| profiles_map := profiles_map st; processed := processed st;
          trace := tr |}
  else
    let tr := tr ++ [Get url] in
    match get web url with
    | Failed =>
        {| profiles_map := profiles_map st; processed := processed st;
           trace := tr |}
    | Http code soup =>
        if negb (code =? 200)
        then {| profiles_map := profiles_map st; processed := processed st;
                trace := tr |}
        else
          let names := extract_authors (authors soup) in
          let sec := normalize_beat (section soup) in
          match merge_authors url (page_title soup) (pub_date soup) sec
                              names (profiles_map st) with
          | (pm, Raised) =>
              {| profiles_map := pm; processed := processed st; trace := tr |}
          | (pm, Done) =>
              let n := processed st + 1 in
              if n mod WRITE_PROGRESS_EVERY =? 0
              then
                let (pm', out) := _finalize_profiles pm in
                {| profiles_map := pm'; processed := n;
                   trace := tr ++ [WriteJson {| outlet_name := OUTLET;
                                                website := base_url;
                                                profiles := out |}] |}
              else {| profiles_map := pm; processed := n; trace := tr |}
          end
    end.

Fixpoint visit_all (min_profiles : Z) (urls : list str) (st : run) : run :=
  match urls with
  | [] => st
  | url :: rest =>
      if Z.of_nat (List.length (profiles_map st)) >=? min_profiles
      then st
      else visit_all min_profiles rest (visit url st)
  end.

Definition start : run :=
  {| profiles_map := []; processed := 0; trace := [] |}.

(** [extract_profiles], from the list that [find_article_links] returned. *)
Definition extract_profiles (urls : list str) (min_profiles : Z)
  : list profile :=
  snd (_finalize_profiles (profiles_map (visit_all min_profiles urls start))).

End Pipeline.

(* ================================================================== *)
(** ** [find_article_links] *)
(* ================================================================== *)

Definition MAX_ARTICLE_URLS : nat := 800.

Definition seeds : list str :=
  [lit ""; lit "/news"; lit "/latest"; lit "/world"; lit "/articles";
   lit "/section"; lit "/topics"; lit "/author"; lit "/authors";
   lit "/contributors"; lit "/staff"].

Definition article_words : list str :=
  [lit "/article"; lit "/news/"; lit "/story"; lit "/opinion";
   lit "/feature"; lit "/analysis"; lit "/reports"; lit "/sport";
   lit "/sports"].

Definition index_words : list str :=
  [lit "/author"; lit "/authors"; lit "/staff"; lit "/contributors";
   lit "/profile"].

(** [any(x in path for x in words)] *)
Definition any_in (words : list str) (path : str) : bool :=
  existsb (fun x => contains x path) words.

(** One or two digits and a slash; two digits are tried first. *)
Definition digits_slash (s : str) : option str :=
  match s with
  | d1 :: d2 :: 47%N :: r =>
      if is_decimal d1 && is_decimal d2 then Some r
      else if is_decimal d1 && (d2 =? 47)%N then Some (47%N :: r) else None
  | d1 :: 47%N :: r => if is_decimal d1 then Some r else None
  | _ => None
  end.

(** The dated pattern, slash, four digits, slash, one or two digits,
    slash, one or two digits, slash, at the head of [s]. *)
Definition dated_here (s : str) : bool :=
  match s with
  | 47%N :: y1 :: y2 :: y3 :: y4 :: 47%N :: r =>
      is_decimal y1 && is_decimal y2 && is_decimal y3 && is_decimal y4 &&
      match digits_slash r with
      | Some r' => match digits_slash r' with Some _ => true | None => false end
      | None => false
      end
  | _ => false
  end.

Fixpoint dated_path (s : str) : bool :=
  dated_here s ||
  match s with
  | [] => false
  | _ :: r => dated_path r
  end.

Fixpoint lstrip_slash (s : str) : str :=
  match s with
  | [] => []
  | c :: r => if (c =? 47)%N then lstrip_slash r else s
  end.

Fixpoint rstrip_slash (s : str) : str :=
  match s with
  | [] => []
  | c :: r =>
      match rstrip_slash r with
      | [] => if (c =? 47)%N then [] else [c]
      | r' => c :: r'
      end
  end.

(** [len(path.strip('/').split('/'))] *)
Definition path_depth (path : str) : nat :=
  S (List.length (filter (N.eqb 47) (rstrip_slash (lstrip_slash path)))).

(** [full.split('?')[0]] *)
Fixpoint before_query (s : str) : str :=
  match s with
  | [] => []
  | c :: r => if (c =? 63)%N then [] else c :: before_query r
  end.

(** [set.add] *)
Definition set_add (x : str) (l : list str) : list str :=
  if str_in x l then l else l ++ [x].

(** The two components of a parsed URL that the crawler reads. *)
Record url_parts := { netloc : str; path : str }.

(** The state of the [while] loop. *)
Record frontier := {
  to_visit : list str;
  seen : list str;
  article_links : list str
}.

Inductive answer (A : Type) :=
| Returned (a : A)
| Raises
| OutOfFuel.
Arguments Returned {A} a.
Arguments Raises {A}.
Arguments OutOfFuel {A}.

Section Crawler.
(** [urllib.parse]: [None] is the [ValueError] either function may raise. *)
Variable urljoin : str -> str -> option str.
Variable urlparse : str -> option url_parts.
Variable web : site.

(** The body of the loop over the anchors of the page at [url], for one
    anchor.  [seen] is not changed by the loop. *)
Definition scan_anchor (domain url : str) (seen_now : list str) (href : str)
    (st : list str * list str) : (list str * list str) * outcome :=
  let (links, queue) := st in
  if is_empty href then (st, Done)
  else
    match urljoin url href with
    | None => (st, Raised)
    | Some full =>
        match urlparse full with
        | None => (st, Raised)
        | Some p =>
            if negb (contains domain (lower (netloc p))) then (st, Done)
            else
              let pth := lower (path p) in
              let links' :=
                if dated_path pth || any_in article_words pth
                then set_add (before_query full) links
                else links in
              let queue' :=
                if any_in index_words pth || (path_depth pth <=? 3)%nat
                then (if str_in full seen_now then queue else queue ++ [full])
                else queue in
              ((links', queue'), Done)
        end
    end.

Fixpoint scan_anchors (domain url : str) (seen_now : list str)
    (l : list str) (st : list str * list str)
  : (list str * list str) * outcome :=
  match l with
  | [] => (st, Done)
  | href :: r =>
      match scan_anchor domain url seen_now href st with
      | (st', Raised) => (st', Raised)
      | (st', Done) => scan_anchors domain url seen_now r st'
      end
  end.

(** The [while] loop; [fuel] bounds the number of iterations. *)
Fixpoint crawl (fuel : nat) (domain : str) (st : frontier) : option (list str) :=
  match fuel with
  | O => None
  | S fuel' =>
      match to_visit st with
      | [] => Some (article_links st)
      | url :: rest =>
          if (MAX_ARTICLE_URLS <=? List.length (article_links st))%nat
          then Some (article_links st)
          else if is_empty url || str_in url (seen st)
          then crawl fuel' domain
                 {| to_visit := rest; seen := seen st;
                    article_links := article_links st |}
          else
            let seen' := seen st ++ [url] in
            let skip := {| to_visit := rest; seen := seen';
                           article_links := article_links st |} in
            if negb (allowed_by_robots web url) then crawl fuel' domain skip
            else
              match get web url with
              | Failed => crawl fuel' domain skip
              | Http code soup =>
                  if negb (code =? 200) then crawl fuel' domain skip
                  else
                    let '((links, queue), _) :=
                      scan_anchors domain url seen' (hrefs soup)
                                   (article_links st, rest) in
                    crawl fuel' domain
                      {| to_visit := queue; seen := seen';
                         article_links := links |}
              end
      end
  end.

(** [to_visit.append(urljoin(base_url, s))] for every seed. *)
Fixpoint seed_urls (base_url : str) (l : list str) : option (list str) :=
  match l with
  | [] => Some []
  | s :: r =>
      match urljoin base_url s, seed_urls base_url r with
      | Some u, Some us => Some (u :: us)
      | _, _ => None
      end
  end.

(** [find_article_links].  The set [article_links] is kept in insertion
    order; the order in which Python lists a set is not modelled. *)
Definition find_article_links (fuel : nat) (base_url : str)
  : answer (list str) :=
  match urlparse base_url with
  | None => Raises
  | Some p =>
      let domain := lower (netloc p) in
      match seed_urls base_url seeds with
      | None => Raises
      | Some us =>
          match crawl fuel domain
                  {| to_visit := base_url :: us; seen := [];
                     article_links := [] |} with
          | None => OutOfFuel
          | Some links => Returned (firstn MAX_ARTICLE_URLS links)
          end
      end
  end.

End Crawler.

(* ================================================================== *)
(** ** [_atomic_write_json] *)
(* ================================================================== *)

(** The files of the machine, path to content, and every state of them
    that has existed since the call began, oldest first.  A reader, or a
    kill of the process, meets one of the states of [observed]. *)
Record disk := {
  files : dict str;
  observed : list (dict str)
}.

Definition commit (f : dict str) (d : disk) : disk :=
  {| files := f; observed := observed d ++ [f] |}.

(** The system calls of the function, each of which may raise. *)
Inductive syscall :=
| Mkstemp
| WriteTmp (k : nat)
| Fsync
| Replace
| OpenDest
| WriteDest (k : nat).

(** The head of [os.path.split]: up to and including the last slash. *)
Fixpoint upto_last_slash (s : str) : str :=
  match s with
  | [] => []
  | c :: r =>
      match upto_last_slash r with
      | [] => if (c =? 47)%N then [c] else []
      | h => c :: h
      end
  end.

(** [os.path.dirname] *)
Definition dirname (p : str) : str :=
  let head := upto_last_slash p in
  if forallb (N.eqb 47) head then head else rstrip_slash head.

(** [os.path.join] of a directory and a file name. *)
Definition path_join (a b : str) : str :=
  if starts_with [47%N] b then b
  else if is_empty a || starts_with [47%N] (rev a) then a ++ b
  else a ++ 47%N :: b.

Definition tmp_prefix : str := lit ".tmp_data_".

(** The loop of [tempfile.mkstemp]: the first proposed name that no file
    of the directory bears; [None] is its [FileExistsError]. *)
Fixpoint mkstemp_inner (dir : str) (names : list str) (f : dict str)
  : option str :=
  match names with
  | [] => None
  | n :: r =>
      let file := path_join dir (tmp_prefix ++ n) in
      match dict_get file f with
      | Some _ => mkstemp_inner dir r f
      | None => Some file
      end
  end.

Definition append_file (file chunk : str) (f : dict str) : dict str :=
  dict_set file
    (match dict_get file f with
     | Some c => c ++ chunk
     | None => chunk
     end) f.

(** [os.replace(tmp, path)] *)
Definition rename (tmp path : str) (f : dict str) : dict str :=
  match dict_get tmp f with
  | Some c => dict_set path c (dict_remove tmp f)
  | None => f
  end.

(** [os.path.dirname(path) or '.'] *)
Definition dir_of (path : str) : str :=
  match dirname path with
  | [] => lit "."
  | h => h
  end.

Section Checkpointer.
(** [os.path.abspath], which depends on the working directory. *)
Variable abspath : str -> str.
(** The names the random generator of [tempfile] proposes. *)
Variable tmp_names : list str.
(** Which system calls raise. *)
Variable raises : syscall -> bool.

(** [json.dump] into an open file: the text reaches the file in the
    pieces [chunks], one write each. *)
Fixpoint write_chunks (call : nat -> syscall) (file : str) (k : nat)
    (chunks : list str) (d : disk) : disk * outcome :=
  match chunks with
  | [] => (d, Done)
  | c :: r =>
      if raises (call k) then (d, Raised)
      else write_chunks call file (S k) r
             (commit (append_file file c (files d)) d)
  end.

(** The body of the outer [try]. *)
Definition write_via_tmp (path : str) (chunks : list str) (d : disk)
  : disk * outcome :=
  let dirn := dir_of path in
  if raises Mkstemp then (d, Raised)
  else
    match mkstemp_inner (abspath dirn) tmp_names (files d) with
    | None => (d, Raised)
    | Some tmp =>
        let d1 := commit (dict_set tmp [] (files d)) d in
        match write_chunks WriteTmp tmp 0 chunks d1 with
        | (d2, Raised) => (d2, Raised)
        | (d2, Done) =>
            if raises Fsync then (d2, Raised)
            else if raises Replace then (d2, Raised)
            else (commit (rename tmp path (files d2)) d2, Done)
        end
    end.

(** The body of the handler: [open(path, 'w')] empties the file, and a
    failure is passed over. *)
Definition write_direct (path : str) (chunks : list str) (d : disk) : disk :=
  if raises OpenDest then d
  else fst (write_chunks WriteDest path 0 chunks
              (commit (dict_set path [] (files d)) d)).

Definition _atomic_write_json (path : str) (chunks : list str) (d : disk)
  : disk :=
  match write_via_tmp path chunks d with
  | (d', Done) => d'
  | (d', Raised) => write_direct path chunks d'
  end.

End Checkpointer.

(** The disk at the moment of the call. *)
Definition disk_of (f : dict str) : disk := {| files := f; observed := [f] |}.

(* ================================================================== *)
(** ** Stub disks *)
(* ================================================================== *)

Definition data_file : str := lit "/srv/newstrace/data.json".

(** A disk that holds an earlier snapshot. *)
Definition old_disk : dict str := [(data_file, lit "{old}")].

(** The new snapshot, in three writes. *)
Definition new_chunks : list str := [lit "{"; lit "new"; lit "}"].

Definition no_failure (c : syscall) : bool := false.

(** The temporary file cannot be created. *)
Definition mkstemp_fails (c : syscall) : bool :=
  match c with
  | Mkstemp => true
  | _ => false
  end.

(* ================================================================== *)
(** ** Stub sites *)
(* ================================================================== *)

Definition no_page : page :=
  {| hrefs := []; authors := []; page_title := []; pub_date := [];
     section := [] |}.

(** A site that allows every robot and serves the listed pages with
    status 200, anything else with status 404. *)
Definition stub_site (pages : dict page) : site :=
  {| allowed_by_robots := fun _ => true;
     get := fun u =>
       match dict_get u pages with
       | Some p => Http 200 p
       | None => Http 404 no_page
       end |}.

(** An article page with one author name in its markup. *)
Definition article (author title date sec : string) : page :=
  {| hrefs := []; authors := [lit author]; page_title := lit title;
     pub_date := lit date; section := lit sec |}.

(** Three pages authored A, A, B. *)
Definition site_a_a_b : site :=
  stub_site
    [ (lit "/1", article "A" "One" "2024-01-01" "Politics");
      (lit "/2", article "A" "Two" "2024-01-02" "Politics");
      (lit "/3", article "B" "Three" "2024-01-03" "Sports") ].

(** Three pages authored Alice, Alice, Bob. *)
Definition site_alice_alice_bob : site :=
  stub_site
    [ (lit "/1", article "Alice" "One" "2024-01-01" "Politics");
      (lit "/2", article "Alice" "Two" "2024-01-02" "Politics");
      (lit "/3", article "Bob" "Three" "2024-01-03" "Sports") ].

(** Three pages by one author, on politics, politics and sports. *)
Definition site_three_beats : site :=
  stub_site
    [ (lit "/1", article "Jane Doe" "One" "2024-01-01" "Politics");
      (lit "/2", article "Jane Doe" "Two" "2024-01-02" "Politics");
      (lit "/3", article "Jane Doe" "Three" "2024-01-03" "Sports") ].

(** Seven pages by one author: sports three times and politics twice,
    then politics twice more. *)
Definition seven_pages : dict page :=
  [ (lit "/1", article "Jane Doe" "One" "2024-01-01" "Sports");
    (lit "/2", article "Jane Doe" "Two" "2024-01-02" "Sports");
    (lit "/3", article "Jane Doe" "Three" "2024-01-03" "Sports");
    (lit "/4", article "Jane Doe" "Four" "2024-01-04" "Politics");
    (lit "/5", article "Jane Doe" "Five" "2024-01-05" "Politics");
    (lit "/6", article "Jane Doe" "Six" "2024-01-06" "Politics");
    (lit "/7", article "Jane Doe" "Seven" "2024-01-07" "Politics") ].

Definition site_seven_pages : site := stub_site seven_pages.

(** How many of the listed pages are on the beat [b]. *)
Definition pages_on_beat (b : str) (pages : dict page) : nat :=
  List.length
    (filter (fun kv => str_eqb (normalize_beat (section (snd kv))) b) pages).

Definition seven_urls : list str :=
  [lit "/1"; lit "/2"; lit "/3"; lit "/4"; lit "/5"; lit "/6"; lit "/7"].

(** Thirty distinct names, and a page that carries them all. *)
Definition thirty_names : list str :=
  List.map (fun n => [74; 97 + N.of_nat (n mod 26); 97 + N.of_nat (n / 26)]%N)
           (seq 0 30).

Definition site_thirty_authors : site :=
  stub_site
    [ (lit "/1", {| hrefs := []; authors := thirty_names;
                    page_title := lit "Masthead"; pub_date := lit "Unknown";
                    section := lit "News" |});
      (lit "/2", article "Zed Last" "Late" "2024-01-02" "Sports") ].

(** The profile of Alice after the three pages of
    [site_alice_alice_bob]. *)
Definition alice_two_articles : profile :=
  {| p_name := lit "Alice"; p_beat := lit "Politics";
     p_latest_article := lit "Two"; p_article_url := lit "/2";
     p_publication_date := lit "2024-01-02"; p_articles_count := 2 |}.

(** A profile map out of order, with two equal counts and a blacklisted
    name. *)
Definition bob_alice_carol : dict entry :=
  [ (lit "carol",
     {| name := lit "Carol"; beat_counts := Some [(lit "World", 2)];
        beat := lit "World"; latest_article := lit "Three";
        article_url := lit "/3"; publication_date := lit "2024-01-03";
        articles_count := 2 |});
    (lit "staff",
     {| name := lit "Staff"; beat_counts := Some [(lit "News", 8)];
        beat := lit "News"; latest_article := lit "Four";
        article_url := lit "/4"; publication_date := lit "Unknown";
        articles_count := 8 |});
    (lit "alice",
     {| name := lit "Alice"; beat_counts := Some [(lit "News", 5)];
        beat := lit "News"; latest_article := lit "Two";
        article_url := lit "/2"; publication_date := lit "2024-01-02";
        articles_count := 5 |});
    (lit "bob",
     {| name := lit "Bob"; beat_counts := Some [(lit "Sports", 2)];
        beat := lit "Sports"; latest_article := lit "One";
        article_url := lit "/1"; publication_date := lit "2024-01-01";
        articles_count := 2 |}) ].

(** A profile map with a blacklisted name and a plain one. *)
Definition staff_and_alice : dict entry :=
  [ (lit "staff",
     {| name := lit "Staff"; beat_counts := Some [(lit "News", 9)];
        beat := lit "News"; latest_article := lit "One";
        article_url := lit "/1"; publication_date := lit "Unknown";
        articles_count := 9 |});
    (lit "alice",
     {| name := lit "Alice"; beat_counts := Some [(lit "News", 1)];
        beat := lit "News"; latest_article := lit "Two";
        article_url := lit "/2"; publication_date := lit "Unknown";
        articles_count := 1 |}) ].

(* ================================================================== *)
(** ** A stub of [urllib.parse] *)
(* ================================================================== *)

(** [urlsplit] and [urljoin] for the URLs of the stub sites: no leading
    control characters, no tabs or newlines, no bracketed hosts, and no
    dot segments or empty segments in references. *)

Definition is_scheme_char (c : char) : bool :=
  (is_lower c || is_upper c || is_digit c ||
   (c =? 43) || (c =? 45) || (c =? 46))%N.

(** The text before the first colon, when it is made of scheme
    characters, and the text after it. *)
Fixpoint split_scheme_from (acc s : str) : option (str * str) :=
  match s with
  | [] => None
  | c :: r =>
      if (c =? 58)%N then Some (rev acc, r)
      else if is_scheme_char c then split_scheme_from (c :: acc) r
      else None
  end.

Definition split_scheme (u : str) : str * str :=
  match u with
  | c :: _ =>
      if is_upper c || is_lower c
      then match split_scheme_from [] u with
           | Some (sch, rest) => (lower sch, rest)
           | None => ([], u)
           end
      else ([], u)
  | [] => ([], u)
  end.

Fixpoint take_until (stop : char -> bool) (s : str) : str :=
  match s with
  | [] => []
  | c :: r => if stop c then [] else c :: take_until stop r
  end.

Fixpoint drop_until (stop : char -> bool) (s : str) : str :=
  match s with
  | [] => []
  | c :: r => if stop c then s else drop_until stop r
  end.

(** Slash, question mark or hash. *)
Definition ends_netloc (c : char) : bool :=
  ((c =? 47) || (c =? 63) || (c =? 35))%N.

(** Question mark or hash. *)
Definition ends_path (c : char) : bool := ((c =? 63) || (c =? 35))%N.

Definition stub_urlparse (u : str) : option url_parts :=
  let (_, rest) := split_scheme u in
  match rest with
  | 47%N :: 47%N :: r =>
      Some {| netloc := take_until ends_netloc r;
              path := take_until ends_path (drop_until ends_netloc r) |}
  | _ => Some {| netloc := []; path := take_until ends_path rest |}
  end.

Definition stub_urljoin (base url : str) : option str :=
  match base, url with
  | [], _ => Some url
  | _, [] => Some base
  | _, _ =>
      let (bscheme, brest) := split_scheme base in
      let (scheme, rest) := split_scheme url in
      match scheme with
      | _ :: _ => Some url
      | [] =>
          match stub_urlparse base with
          | None => None
          | Some b =>
              let origin := bscheme ++ lit "://" ++ netloc b in
              if starts_with (lit "//") url then Some (bscheme ++ 58%N :: url)
              else if starts_with (lit "/") url then Some (origin ++ url)
              else match upto_last_slash (path b) with
                   | [] => Some (origin ++ 47%N :: url)
                   | dir => Some (origin ++ dir ++ url)
                   end
          end
      end
  end.

(** A site whose front page links to an article on another host. *)
Definition site_foreign_link : site :=
  stub_site
    [ (lit "https://example.com",
       {| hrefs := [lit "https://notexample.com/news/1";
                    lit "/news/2?ref=home"];
          authors := []; page_title := lit "Front"; pub_date := [];
          section := [] |}) ].

(* ================================================================== *)
(** ** Predicates of the statements *)
(* ================================================================== *)

Definition valid_date (a : date) : Prop :=
  1 <= year a <= 9999 /\ 1 <= month a <= 12 /\
  1 <= day a <= days_in_month (year a) (month a).

(** The day of the year. *)
Definition day_of_year (a : date) : Z :=
  days_before_month (year a) (month a) + day a.

(** The character that [title] writes for [c]. *)
Definition title_char (prev_cased : bool) (c : char) : char :=
  if prev_cased then lower_c c else upper_c c.

(** A test on characters that no change of case can alter. *)
Definition case_blind (f : char -> bool) : Prop :=
  forall c, is_cased c = true -> f c = false.

(** No whitespace at the head. *)
Definition starts_clean (s : str) : bool :=
  match s with
  | [] => true
  | c :: _ => negb (is_space c)
  end.

(** No whitespace at the end. *)
Fixpoint ends_clean (s : str) : bool :=
  match s with
  | [] => true
  | c :: r =>
      match r with
      | [] => negb (is_space c)
      | _ => ends_clean r
      end
  end.

(** Every whitespace character is a single space that follows none. *)
Fixpoint single_spaced (in_run : bool) (s : str) : bool :=
  match s with
  | [] => true
  | c :: r =>
      if is_space c
      then negb in_run && (c =? 32)%N && single_spaced true r
      else single_spaced false r
  end.

Definition no_space (s : str) : bool := forallb (fun c => negb (is_space c)) s.

Definition no_zero_width (s : str) : bool :=
  forallb (fun c => negb (is_zero_width c)) s.

Definition no_punct (s : str) : bool :=
  forallb (fun c => negb (is_name_punct c)) s.

(** What [name_core] leaves: trimmed, single-spaced, free of zero-width
    characters and of punctuation. *)
Definition tidy (s : str) : Prop :=
  starts_clean s = true /\ ends_clean s = true /\
  single_spaced false s = true /\ no_zero_width s = true /\
  no_punct s = true.

(** [a <= b] on strings. *)
Definition str_le (a b : str) : Prop := str_ltb b a = false.

(** Descending article count, then ascending name. *)
Definition profile_le (a b : profile) : Prop :=
  p_articles_count b < p_articles_count a \/
  (p_articles_count a = p_articles_count b /\ str_le (p_name a) (p_name b)).

Definition counted (e : entry) : Prop := 1 <= articles_count e.

(** Every value of a dictionary satisfies [Q]. *)
Definition every_value {V : Type} (Q : V -> Prop) (d : dict V) : Prop :=
  Forall (fun kv => Q (snd kv)) d.


Definition three_urls : list str := [lit "/1"; lit "/2"; lit "/3"].

(* ================================================================== *)
(** ** [detect_website]: the candidate addresses *)
(* ================================================================== *)





(* ================================================================== *)
(** ** Predicates of the further properties *)
(* ================================================================== *)

(** The test that lets a link into [article_links]. *)
Definition article_like (pth : str) : bool :=
  dated_path pth || any_in article_words pth.

(** The test of [_finalize_profiles] that keeps an entry. *)
Definition is_kept (v : entry) : bool :=
  negb (is_empty (lower (strip (name v))) ||
        str_in (lower (strip (name v))) blacklist).

(** The number of progress snapshots written. *)
Fixpoint count_writes (tr : list event) : Z :=
  match tr with
  | [] => 0
  | WriteJson _ :: r => 1 + count_writes r
  | _ :: r => count_writes r
  end.

(** A lower-case letter or a digit. *)
Definition is_word_char (c : char) : bool := (is_lower c || is_digit c)%N.


(** A site that answers no request. *)
Definition dead_site : site :=
  {| allowed_by_robots := fun _ => true; get := fun _ => Failed |}.

(** An entry with three beats counted. *)
Definition entry_three_beats : entry :=
  {| name := lit "Jane Doe";
     beat_counts := Some [(lit "Sports", 2); (lit "Politics", 5);
                          (lit "World", 5)];
     beat := lit "Sports"; latest_article := lit "One";
     article_url := lit "/1"; publication_date := lit "2024-01-01";
     articles_count := 12 |}.

(** The keys of the profile map are distinct, and each is the lower-case
    form of the name of its entry. *)
Definition keyed (pm : dict entry) : Prop :=
  NoDup (List.map fst pm) /\
  Forall (fun kv => fst kv = lower (name (snd kv))) pm.

(** No question mark. *)
Definition no_query (u : str) : bool := forallb (fun c => negb (c =? 63)%N) u.

(** Robots disallow the URL, or the request fails, or the status is not
    200. *)
Definition unreachable (web : site) (u : str) : bool :=
  negb (allowed_by_robots web u) ||
  match get web u with
  | Failed => true
  | Http code _ => negb (code =? 200)%Z
  end.

(** The rename fails. *)
Definition replace_fails (c : syscall) : bool :=
  match c with
  | Replace => true
  | _ => false
  end.

(** Every entry of [pm] is still in [pm'], under its key, with its name
    and with an article count that is not smaller. *)
Definition persists (pm pm' : dict entry) : Prop :=
  forall k e, dict_get k pm = Some e ->
    exists e', dict_get k pm' = Some e' /\ name e' = name e /\
               (articles_count e <= articles_count e')%Z.

(** What the trace of a run may hold: a request for a page only where
    the robots check allowed it. *)
Definition polite (web : site) (urls : list str) (e : event) : Prop :=
  match e with
  | Get u => allowed_by_robots web u = true /\ In u urls
  | RobotsCheck u => In u urls
  | WriteJson _ => True
  end.

(** A property of the set of links that every admitted link keeps. *)
Definition kept_by_add (urlparse : str -> option url_parts) (domain : str)
    (Q : list str -> Prop) : Prop :=
  forall links full p,
    Q links -> urlparse full = Some p ->
    contains domain (lower (netloc p)) = true ->
    article_like (lower (path p)) = true ->
    Q (set_add (before_query full) links).

(* ================================================================== *)
(** * Properties *)
(* ================================================================== *)

(** ** Characters and strings *)

Open Scope N_scope.

Ltac split_bools :=
  repeat match goal with
  | H : (_ && _) = true |- _ => apply andb_prop in H; destruct H
  | H : (_ || _) = false |- _ => apply orb_false_elim in H; destruct H
  | H : negb _ = true |- _ => apply negb_true_iff in H
  | H : negb _ = false |- _ => apply negb_false_iff in H
  end.

Ltac n_props :=
  repeat match goal with
  | H : (_ <=? _)%N = true |- _ => apply N.leb_le in H
  | H : (_ <=? _)%N = false |- _ => apply N.leb_gt in H
  | H : (_ <? _)%N = true |- _ => apply N.ltb_lt in H
  | H : (_ <? _)%N = false |- _ => apply N.ltb_ge in H
  | H : (_ =? _)%N = true |- _ => apply N.eqb_eq in H
  | H : (_ =? _)%N = false |- _ => apply N.eqb_neq in H
  end.

Lemma str_eqb_eq (a b : str) : str_eqb a b = true <-> a = b.
Proof.
  revert b; induction a as [|x a IH]; intros [|y b]; simpl;
    try (split; [discriminate | congruence]); try tauto.
  rewrite andb_true_iff, N.eqb_eq, IH. split.
  - intros [-> ->]; reflexivity.
  - intros E; injection E; auto.
Qed.

Lemma str_eqb_refl (a : str) : str_eqb a a = true.
Proof. apply str_eqb_eq; reflexivity. Qed.

Lemma str_eqb_neq (a b : str) : str_eqb a b = false <-> a <> b.
Proof.
  rewrite <- str_eqb_eq. destruct (str_eqb a b); split; congruence.
Qed.

Lemma str_in_In (x : str) (l : list str) : str_in x l = true <-> In x l.
Proof.
  unfold str_in. rewrite existsb_exists. split.
  - intros [y [Hy E]]. apply str_eqb_eq in E. subst; assumption.
  - intros H. exists x. split; [assumption | apply str_eqb_refl].
Qed.

Lemma in_range_spec lo hi c :
  in_range lo hi c = true <-> (lo <= c <= hi)%N.
Proof.
  unfold in_range. rewrite andb_true_iff, !N.leb_le. tauto.
Qed.

Lemma is_cased_range c :
  is_cased c = true <-> ((65 <= c <= 90) \/ (97 <= c <= 122))%N.
Proof.
  unfold is_cased, is_upper, is_lower.
  rewrite orb_true_iff, !in_range_spec. tauto.
Qed.

Lemma cased_not_space c : is_cased c = true -> is_space c = false.
Proof.
  intros H. apply is_cased_range in H.
  unfold is_space, in_range.
  repeat (apply orb_false_intro);
    first [ apply andb_false_iff;
            destruct (N.leb_spec 9 c), (N.leb_spec 28 c), (N.leb_spec 8192 c);
            first [ left; reflexivity | right; apply N.leb_gt; lia
                  | left; apply N.leb_gt; lia ]
          | apply N.eqb_neq; lia ].
Qed.

Lemma cased_not_zero_width c : is_cased c = true -> is_zero_width c = false.
Proof.
  intros H. apply is_cased_range in H.
  unfold is_zero_width, in_range.
  apply andb_false_iff. left. apply N.leb_gt. lia.
Qed.

Lemma cased_not_punct c : is_cased c = true -> is_name_punct c = false.
Proof.
  intros H. apply is_cased_range in H.
  unfold is_name_punct. simpl.
  repeat (apply orb_false_intro); try reflexivity; apply N.eqb_neq; lia.
Qed.

Lemma title_char_uncased p c : is_cased c = false -> title_char p c = c.
Proof.
  unfold is_cased, title_char, lower_c, upper_c. intros H.
  apply orb_false_elim in H. destruct H as [-> ->]. destruct p; reflexivity.
Qed.

Lemma title_char_cased p c :
  is_cased c = true -> is_cased (title_char p c) = true.
Proof.
  intros H. pose proof H as Hc. apply is_cased_range in H.
  unfold title_char, lower_c, upper_c, is_upper, is_lower.
  destruct p.
  - destruct (in_range 65 90 c) eqn:E; [|assumption].
    apply in_range_spec in E. apply is_cased_range. lia.
  - destruct (in_range 97 122 c) eqn:E; [|assumption].
    apply in_range_spec in E. apply is_cased_range. lia.
Qed.

Lemma title_char_is_cased p c : is_cased (title_char p c) = is_cased c.
Proof.
  destruct (is_cased c) eqn:E.
  - apply title_char_cased; assumption.
  - rewrite title_char_uncased; assumption.
Qed.

Lemma title_char_idem p c : title_char p (title_char p c) = title_char p c.
Proof.
  destruct (is_cased c) eqn:E.
  2:{ rewrite !(title_char_uncased p c E). reflexivity. }
  unfold title_char, lower_c, upper_c, is_upper, is_lower.
  destruct p.
  - destruct (in_range 65 90 c) eqn:E1.
    + apply in_range_spec in E1.
      destruct (in_range 65 90 (c + 32)) eqn:E2; [|reflexivity].
      apply in_range_spec in E2. lia.
    + rewrite E1. reflexivity.
  - destruct (in_range 97 122 c) eqn:E1.
    + apply in_range_spec in E1.
      destruct (in_range 97 122 (c - 32)) eqn:E2; [|reflexivity].
      apply in_range_spec in E2. lia.
    + rewrite E1. reflexivity.
Qed.

Lemma title_from_cons p c r :
  title_from p (c :: r) = title_char p c :: title_from (is_cased c) r.
Proof. reflexivity. Qed.

Lemma title_from_idem s : forall p,
  title_from p (title_from p s) = title_from p s.
Proof.
  induction s as [|c r IH]; intros p; [reflexivity|].
  rewrite !title_from_cons, title_char_idem, title_char_is_cased, IH.
  reflexivity.
Qed.

Lemma title_from_length s : forall p,
  List.length (title_from p s) = List.length s.
Proof.
  induction s as [|c r IH]; intros p; simpl; [reflexivity|].
  rewrite IH; reflexivity.
Qed.

Lemma case_blind_title_char f p c :
  case_blind f -> f (title_char p c) = f c.
Proof.
  intros Hf. destruct (is_cased c) eqn:E.
  - rewrite (Hf c E). apply Hf. apply title_char_cased; assumption.
  - rewrite title_char_uncased; auto.
Qed.

Lemma title_char_space p c : is_space (title_char p c) = is_space c.
Proof. apply case_blind_title_char. exact cased_not_space. Qed.

Lemma title_from_forallb f s : case_blind (fun c => negb (f c)) ->
  forall p, forallb f (title_from p s) = forallb f s.
Proof.
  intros Hf. induction s as [|c r IH]; intros p; [reflexivity|].
  rewrite title_from_cons. simpl. rewrite IH.
  f_equal.
  pose proof (case_blind_title_char (fun c => negb (f c)) p c Hf) as E.
  simpl in E. destruct (f (title_char p c)), (f c); simpl in E; congruence.
Qed.

(** ** Stripping and collapsing whitespace *)

Lemma lstrip_starts_clean s : starts_clean (lstrip s) = true.
Proof.
  induction s as [|c r IH]; simpl; [reflexivity|].
  destruct (is_space c) eqn:E; [assumption|]. simpl. rewrite E. reflexivity.
Qed.

Lemma lstrip_fixed s : starts_clean s = true -> lstrip s = s.
Proof.
  destruct s as [|c r]; simpl; [reflexivity|].
  intros H. apply negb_true_iff in H. rewrite H. reflexivity.
Qed.

Lemma rstrip_cons c r :
  rstrip (c :: r) =
  match rstrip r with
  | [] => if is_space c then [] else [c]
  | _ :: _ => c :: rstrip r
  end.
Proof. simpl. destruct (rstrip r); reflexivity. Qed.

Lemma rstrip_ends_clean s : ends_clean (rstrip s) = true.
Proof.
  induction s as [|c r IH]; [reflexivity|].
  rewrite rstrip_cons. destruct (rstrip r) as [|x r'] eqn:E.
  - destruct (is_space c) eqn:Ec; simpl; [reflexivity|]. rewrite Ec; reflexivity.
  - simpl. simpl in IH. exact IH.
Qed.

Lemma rstrip_fixed s : ends_clean s = true -> rstrip s = s.
Proof.
  induction s as [|c r IH]; [reflexivity|].
  intros H. rewrite rstrip_cons. destruct r as [|x r'].
  - simpl in *. apply negb_true_iff in H. rewrite H. reflexivity.
  - assert (Hr : ends_clean (x :: r') = true) by exact H.
    rewrite (IH Hr). reflexivity.
Qed.

Lemma rstrip_starts_clean s :
  starts_clean s = true -> starts_clean (rstrip s) = true.
Proof.
  destruct s as [|c r]; [reflexivity|].
  intros H. rewrite rstrip_cons. simpl in H.
  destruct (rstrip r).
  - apply negb_true_iff in H. rewrite H. simpl. rewrite H. reflexivity.
  - exact H.
Qed.

Lemma strip_clean s :
  starts_clean (strip s) = true /\ ends_clean (strip s) = true.
Proof.
  unfold strip. split.
  - apply rstrip_starts_clean, lstrip_starts_clean.
  - apply rstrip_ends_clean.
Qed.

Lemma strip_fixed s :
  starts_clean s = true -> ends_clean s = true -> strip s = s.
Proof.
  intros H1 H2. unfold strip. rewrite (lstrip_fixed s H1).
  apply rstrip_fixed; assumption.
Qed.

Lemma space_is_space : is_space 32 = true.
Proof. reflexivity. Qed.

Lemma sub_runs_single_spaced s : forall b,
  single_spaced b (sub_runs is_space b s) = true.
Proof.
  induction s as [|c r IH]; intros b; [reflexivity|].
  simpl. destruct (is_space c) eqn:E.
  - destruct b; [apply IH|].
    change (single_spaced true (sub_runs is_space true r) = true). apply IH.
  - simpl. rewrite E. apply IH.
Qed.

Lemma single_spaced_fixed s : forall b,
  single_spaced b s = true -> sub_runs is_space b s = s.
Proof.
  induction s as [|c r IH]; intros b H; [reflexivity|].
  simpl in *. destruct (is_space c) eqn:E.
  - split_bools. n_props. subst c. rewrite H. f_equal. apply IH; assumption.
  - f_equal. apply IH; assumption.
Qed.

Lemma single_spaced_weaken s :
  single_spaced true s = true -> single_spaced false s = true.
Proof.
  destruct s as [|c r]; simpl; [reflexivity|].
  destruct (is_space c); [discriminate | auto].
Qed.

Lemma single_spaced_lstrip s : forall b,
  single_spaced b s = true -> single_spaced false (lstrip s) = true.
Proof.
  induction s as [|c r IH]; intros b H; [reflexivity|].
  simpl in *. destruct (is_space c) eqn:E.
  - split_bools. eapply IH; eassumption.
  - simpl. rewrite E. assumption.
Qed.

Lemma single_spaced_rstrip s : forall b,
  single_spaced b s = true -> single_spaced b (rstrip s) = true.
Proof.
  induction s as [|c r IH]; intros b H; [reflexivity|].
  rewrite rstrip_cons. simpl in H.
  destruct (rstrip r) as [|x r'] eqn:Er.
  - destruct (is_space c) eqn:E; simpl; [reflexivity|]. rewrite E. reflexivity.
  - simpl. destruct (is_space c) eqn:E.
    + split_bools. rewrite H, H1. simpl. apply (IH true) in H0. exact H0.
    + apply (IH false) in H. exact H.
Qed.

Lemma single_spaced_title s : forall p b,
  single_spaced b (title_from p s) = single_spaced b s.
Proof.
  induction s as [|c r IH]; intros p b; [reflexivity|].
  rewrite title_from_cons. simpl. rewrite title_char_space, !IH.
  destruct (is_space c) eqn:E; [|reflexivity].
  rewrite title_char_uncased; [reflexivity|].
  destruct (is_cased c) eqn:Ec; [|reflexivity].
  apply cased_not_space in Ec. congruence.
Qed.

Lemma starts_clean_title s p : starts_clean (title_from p s) = starts_clean s.
Proof.
  destruct s as [|c r]; [reflexivity|].
  rewrite title_from_cons. simpl. rewrite title_char_space. reflexivity.
Qed.

Lemma ends_clean_title s : forall p,
  ends_clean (title_from p s) = ends_clean s.
Proof.
  induction s as [|c r IH]; intros p; [reflexivity|].
  rewrite title_from_cons. destruct r as [|x r'].
  - simpl. rewrite title_char_space. reflexivity.
  - specialize (IH (is_cased c)). rewrite title_from_cons in *.
    simpl in *. exact IH.
Qed.

(** Sub-lists and substitutions keep a property of every character. *)
Lemma forallb_lstrip f s : forallb f s = true -> forallb f (lstrip s) = true.
Proof.
  induction s as [|c r IH]; simpl; [reflexivity|].
  intros H. split_bools. destruct (is_space c); [auto|].
  simpl. rewrite H, H0. reflexivity.
Qed.

Lemma forallb_rstrip f s : forallb f s = true -> forallb f (rstrip s) = true.
Proof.
  induction s as [|c r IH]; [reflexivity|].
  intros H. rewrite rstrip_cons. simpl in H. split_bools.
  destruct (rstrip r) eqn:E.
  - destruct (is_space c); simpl; [reflexivity|]. rewrite H. reflexivity.
  - simpl. rewrite H. simpl. simpl in IH. apply IH. assumption.
Qed.

Lemma forallb_strip f s : forallb f s = true -> forallb f (strip s) = true.
Proof. intros H. apply forallb_rstrip, forallb_lstrip, H. Qed.

Lemma forallb_sub_runs f cls s : f 32 = true -> forall b,
  forallb f s = true -> forallb f (sub_runs cls b s) = true.
Proof.
  intros H32. induction s as [|c r IH]; intros b H; [reflexivity|].
  simpl in *. split_bools. destruct (cls c).
  - destruct b; simpl; [|rewrite H32; simpl]; apply IH; assumption.
  - simpl. rewrite H. apply IH; assumption.
Qed.

Lemma forallb_filter_id (f : char -> bool) s :
  forallb f s = true -> filter f s = s.
Proof.
  induction s as [|c r IH]; simpl; [reflexivity|].
  intros H. split_bools. rewrite H, IH; auto.
Qed.

Lemma forallb_filter (f : char -> bool) s : forallb f (filter f s) = true.
Proof.
  induction s as [|c r IH]; simpl; [reflexivity|].
  destruct (f c) eqn:E; simpl; [rewrite E|]; assumption.
Qed.

(** ** [normalize_name] *)

Lemma punct_to_space_no_punct s : no_punct (punct_to_space s) = true.
Proof.
  induction s as [|c r IH]; [reflexivity|].
  unfold no_punct, punct_to_space in *. simpl. rewrite IH.
  destruct (is_name_punct c) eqn:E; [reflexivity|]. rewrite E. reflexivity.
Qed.

Lemma punct_to_space_no_zero_width s :
  no_zero_width s = true -> no_zero_width (punct_to_space s) = true.
Proof.
  induction s as [|c r IH]; [reflexivity|].
  unfold no_zero_width, punct_to_space in *. simpl. intros H. split_bools.
  rewrite IH by assumption.
  destruct (is_name_punct c); [reflexivity|]. rewrite H. reflexivity.
Qed.

Lemma punct_to_space_fixed s : no_punct s = true -> punct_to_space s = s.
Proof.
  induction s as [|c r IH]; [reflexivity|].
  unfold no_punct, punct_to_space in *. simpl. intros H. split_bools.
  rewrite H, IH by assumption. reflexivity.
Qed.

Lemma strip_by_fixed s : has_by_prefix s = false -> strip_by s = s.
Proof. unfold strip_by. intros ->. reflexivity. Qed.

Lemma name_core_tidy s : tidy (name_core s).
Proof.
  unfold name_core.
  set (a := remove_zero_width (strip_by (strip s))).
  assert (Ha : no_zero_width a = true) by apply forallb_filter.
  set (b := punct_to_space a).
  assert (Hb1 : no_zero_width b = true)
    by (apply punct_to_space_no_zero_width; exact Ha).
  assert (Hb2 : no_punct b = true) by apply punct_to_space_no_punct.
  repeat split.
  - apply strip_clean.
  - apply strip_clean.
  - unfold strip. apply single_spaced_rstrip.
    apply (single_spaced_lstrip _ false). apply sub_runs_single_spaced.
  - apply forallb_strip. apply forallb_sub_runs; [reflexivity | exact Hb1].
  - apply forallb_strip. apply forallb_sub_runs; [reflexivity | exact Hb2].
Qed.

Lemma tidy_title s : tidy s -> tidy (title s).
Proof.
  unfold tidy, title. intros (H1 & H2 & H3 & H4 & H5).
  rewrite starts_clean_title, ends_clean_title, single_spaced_title.
  unfold no_zero_width, no_punct.
  rewrite !title_from_forallb; auto.
  - intros c Hc. rewrite (cased_not_punct c Hc). reflexivity.
  - intros c Hc. rewrite (cased_not_zero_width c Hc). reflexivity.
Qed.

Lemma name_core_fixed s :
  tidy s -> has_by_prefix s = false -> name_core s = s.
Proof.
  intros (H1 & H2 & H3 & H4 & H5) Hby. unfold name_core.
  rewrite (strip_fixed s H1 H2), (strip_by_fixed s Hby).
  unfold remove_zero_width. rewrite (forallb_filter_id _ s H4).
  rewrite (punct_to_space_fixed s H5).
  unfold collapse_ws. rewrite (single_spaced_fixed s false H3).
  apply strip_fixed; assumption.
Qed.

(** ** Dates *)

Open Scope Z_scope.

Lemma make_date_valid y m d a : make_date y m d = Some a -> valid_date a.
Proof.
  unfold make_date, valid_date.
  destruct (_ && _) eqn:E; [|discriminate].
  intros H; injection H as <-. simpl.
  repeat (apply andb_prop in E; destruct E as [E ?]).
  repeat match goal with
         | H : (_ <=? _) = true |- _ => apply Z.leb_le in H
         end.
  lia.
Qed.

Lemma month_cases m : 1 <= m <= 12 ->
  m = 1 \/ m = 2 \/ m = 3 \/ m = 4 \/ m = 5 \/ m = 6 \/
  m = 7 \/ m = 8 \/ m = 9 \/ m = 10 \/ m = 11 \/ m = 12.
Proof. lia. Qed.

Ltac each_month H :=
  apply month_cases in H;
  repeat (destruct H as [H | H]); rewrite H in *; clear H.

Lemma month_fits y m : 1 <= m <= 12 ->
  0 <= days_before_month y m /\
  days_before_month y m + days_in_month y m <=
    365 + (if is_leap y then 1 else 0).
Proof.
  intros Hm. unfold days_before_month, days_in_month.
  each_month Hm; destruct (is_leap y); split; vm_compute; discriminate.
Qed.

Lemma month_order y m m' : 1 <= m -> m < m' -> m' <= 12 ->
  days_before_month y m + days_in_month y m <= days_before_month y m'.
Proof.
  intros H1 H2 H3.
  assert (Hm : 1 <= m <= 12) by lia. assert (Hm' : 1 <= m' <= 12) by lia.
  unfold days_before_month, days_in_month.
  each_month Hm; each_month Hm'; try lia;
    destruct (is_leap y); vm_compute; discriminate.
Qed.

Lemma day_of_year_bounds a : valid_date a ->
  1 <= day_of_year a <= 365 + (if is_leap (year a) then 1 else 0).
Proof.
  unfold valid_date, day_of_year. intros (_ & Hm & Hd).
  pose proof (month_fits (year a) (month a) Hm). lia.
Qed.

Lemma day_of_year_order a b :
  valid_date a -> valid_date b -> year a = year b ->
  (day_of_year b < day_of_year a <->
   month b < month a \/ (month b = month a /\ day b < day a)).
Proof.
  unfold valid_date, day_of_year. intros (_ & Hm & Hd) (_ & Hm' & Hd') Hy.
  rewrite <- Hy in *.
  destruct (Z.lt_trichotomy (month b) (month a)) as [H | [H | H]].
  - pose proof (month_order (year a) (month b) (month a)
                  ltac:(lia) H ltac:(lia)). lia.
  - rewrite H in *. lia.
  - pose proof (month_order (year a) (month a) (month b)
                  ltac:(lia) H ltac:(lia)). lia.
Qed.

Lemma year_length y :
  days_before_year (y + 1) =
  days_before_year y + 365 + (if is_leap y then 1 else 0).
Proof.
  unfold days_before_year, is_leap.
  replace (y + 1 - 1) with y by lia.
  destruct (y mod 4 =? 0) eqn:E4; destruct (y mod 100 =? 0) eqn:E100;
    destruct (y mod 400 =? 0) eqn:E400; simpl;
    rewrite ?Z.eqb_eq, ?Z.eqb_neq in *;
    Z.div_mod_to_equations; lia.
Qed.

Lemma days_before_year_mono y y' :
  y <= y' -> days_before_year y <= days_before_year y'.
Proof.
  unfold days_before_year. intros H. Z.div_mod_to_equations. lia.
Qed.

Lemma toordinal_eq a : toordinal a = days_before_year (year a) + day_of_year a.
Proof. unfold toordinal, day_of_year. lia. Qed.

(** The comparison of dates is the comparison of their ordinals. *)
Lemma date_gtb_chronological a b :
  valid_date a -> valid_date b ->
  (date_gtb a b = true <-> toordinal b < toordinal a).
Proof.
  intros Ha Hb. rewrite !toordinal_eq.
  pose proof (day_of_year_bounds a Ha) as Ba.
  pose proof (day_of_year_bounds b Hb) as Bb.
  pose proof (year_length (year a)) as La.
  pose proof (year_length (year b)) as Lb.
  unfold date_gtb.
  rewrite orb_true_iff, andb_true_iff, orb_true_iff, andb_true_iff.
  rewrite !Z.ltb_lt, !Z.eqb_eq.
  destruct (Z.lt_trichotomy (year b) (year a)) as [Hy | [Hy | Hy]].
  - pose proof (days_before_year_mono (year b + 1) (year a) ltac:(lia)).
    split; [intros _; lia | intros _; left; exact Hy].
  - pose proof (day_of_year_order a b Ha Hb (eq_sym Hy)) as Ho.
    rewrite Hy. split.
    + intros [H | [_ H]]; [lia|]. apply Ho in H. lia.
    + intros H. right. split; [reflexivity|]. apply Ho. lia.
  - pose proof (days_before_year_mono (year a + 1) (year b) ltac:(lia)).
    split; [intros [H0 | [H0 _]]; lia | intros H0; lia].
Qed.

(** ** Claims on [normalize_name] and [_prefer_newer] *)

Example normalize_name_samples :
  normalize_name (lit "By   John Smith.") = lit "John Smith" /\
  normalize_name (lit "") = lit "" /\
  normalize_name (lit "x") = lit "".
Proof. repeat split; vm_compute; reflexivity. Qed.

Example normalize_beat_samples :
  normalize_beat (lit "Breaking News India") = lit "Breaking" /\
  normalize_beat (lit "Tech") = lit "Technology" /\
  normalize_beat (lit "Foobar Desk") = lit "Foobar".
Proof. repeat split; vm_compute; reflexivity. Qed.

(** C2, as stated, fails: a second by-line prefix survives the first pass
    and is removed by the second. *)
Lemma normalize_name_not_idempotent :
  normalize_name (lit "By By John") = lit "By John" /\
  normalize_name (lit "By John") = lit "John" /\
  normalize_name (normalize_name (lit "By By John")) <>
  normalize_name (lit "By By John").
Proof. repeat split; vm_compute; congruence. Qed.

(** C2, as amended: for every ASCII name whose normalized form does not
    itself begin with a by-line prefix (B, y, then a colon or whitespace,
    in either case), normalizing the normalized name returns it
    unchanged. *)
Theorem normalize_name_idempotent (s : str) :
  forallb is_ascii s = true ->
  has_by_prefix (normalize_name s) = false ->
  normalize_name (normalize_name s) = normalize_name s.
Proof.
  intros _ Hby. unfold normalize_name at 2 3.
  destruct s as [|c0 s0]; [reflexivity|].
  remember (name_core (c0 :: s0)) as core eqn:Hcore.
  destruct (List.length core <=? 1)%nat eqn:Hlen; [reflexivity|].
  assert (Ht : tidy (title core)).
  { apply tidy_title. subst core. apply name_core_tidy. }
  assert (Hby' : has_by_prefix (title core) = false).
  { unfold normalize_name in Hby. rewrite <- Hcore, Hlen in Hby. exact Hby. }
  assert (Hl : List.length (title core) = List.length core)
    by apply title_from_length.
  unfold normalize_name.
  destruct (title core) as [|c1 t1] eqn:Et.
  - reflexivity.
  - rewrite <- Et in *. rewrite (name_core_fixed _ Ht Hby'), Hl, Hlen.
    unfold title. apply title_from_idem.
Qed.

Lemma normalize_name_idempotent_witness :
  forallb is_ascii (lit "By   John Smith.") = true /\
  has_by_prefix (normalize_name (lit "By   John Smith.")) = false /\
  normalize_name (normalize_name (lit "By   John Smith.")) =
  normalize_name (lit "By   John Smith.").
Proof.
  split; [reflexivity|]. split; [reflexivity|].
  apply (normalize_name_idempotent (lit "By   John Smith."));
    reflexivity.
Defined.

Lemma is_unknown_spec (d : str) :
  is_unknown d = true <-> d = [] \/ d = lit "Unknown".
Proof.
  unfold is_unknown. destruct d as [|c r].
  - split; auto.
  - rewrite str_eqb_eq. split; [auto | intros [H | H]; [discriminate | exact H]].
Qed.

Lemma parse_iso_valid (d : str) (a : date) :
  parse_iso d = Some a -> valid_date a.
Proof.
  unfold parse_iso. destruct (search_ymd d) as [[[y mn] dd]|]; [|discriminate].
  apply make_date_valid.
Qed.

(** C3: an empty or "Unknown" candidate is never preferred; a known
    candidate is preferred to an empty or "Unknown" existing date; when
    both dates parse, the candidate is preferred exactly when it is the
    later day; when either fails to parse, exactly when its string is the
    longer one; and the three sample calls answer True, True, False. *)
Theorem prefer_newer_rule :
  (forall existing candidate : str,
     (candidate = [] \/ candidate = lit "Unknown" ->
      _prefer_newer existing candidate = false) /\
     (~ (candidate = [] \/ candidate = lit "Unknown") ->
      existing = [] \/ existing = lit "Unknown" ->
      _prefer_newer existing candidate = true) /\
     (~ (candidate = [] \/ candidate = lit "Unknown") ->
      ~ (existing = [] \/ existing = lit "Unknown") ->
      forall cd ed : date,
        parse_iso candidate = Some cd -> parse_iso existing = Some ed ->
        (_prefer_newer existing candidate = true <->
         toordinal ed < toordinal cd)) /\
     (~ (candidate = [] \/ candidate = lit "Unknown") ->
      ~ (existing = [] \/ existing = lit "Unknown") ->
      parse_iso candidate = None \/ parse_iso existing = None ->
      (_prefer_newer existing candidate = true <->
       (List.length existing < List.length candidate)%nat))) /\
  _prefer_newer (lit "2024-01-01") (lit "2024-02-01") = true /\
  _prefer_newer (lit "Unknown") (lit "2024-02-01") = true /\
  _prefer_newer (lit "2024-02-01") (lit "Unknown") = false.
Proof.
  split; [|repeat split; vm_compute; reflexivity].
  intros existing candidate. unfold _prefer_newer.
  repeat split.
  - intros H. apply is_unknown_spec in H. rewrite H. reflexivity.
  - intros Hc He. apply is_unknown_spec in He.
    destruct (is_unknown candidate) eqn:E.
    + apply is_unknown_spec in E. contradiction.
    + rewrite He. reflexivity.
  - destruct (is_unknown candidate) eqn:Ec;
      [apply is_unknown_spec in Ec; contradiction|].
    destruct (is_unknown existing) eqn:Ee;
      [apply is_unknown_spec in Ee; contradiction|].
    rewrite H1, H2. intros Hg.
    apply (date_gtb_chronological cd ed); eauto using parse_iso_valid.
  - destruct (is_unknown candidate) eqn:Ec;
      [apply is_unknown_spec in Ec; contradiction|].
    destruct (is_unknown existing) eqn:Ee;
      [apply is_unknown_spec in Ee; contradiction|].
    rewrite H1, H2. intros Hg.
    apply (date_gtb_chronological cd ed); eauto using parse_iso_valid.
  - destruct (is_unknown candidate) eqn:Ec;
      [apply is_unknown_spec in Ec; contradiction|].
    destruct (is_unknown existing) eqn:Ee;
      [apply is_unknown_spec in Ee; contradiction|].
    intros Hg. apply Nat.ltb_lt.
    destruct H1 as [H1 | H1]; rewrite H1 in Hg;
      [|destruct (parse_iso candidate)]; exact Hg.
  - destruct (is_unknown candidate) eqn:Ec;
      [apply is_unknown_spec in Ec; contradiction|].
    destruct (is_unknown existing) eqn:Ee;
      [apply is_unknown_spec in Ee; contradiction|].
    intros Hg. apply Nat.ltb_lt in Hg.
    destruct H1 as [H1 | H1]; rewrite H1;
      [|destruct (parse_iso candidate)]; exact Hg.
Qed.

(** The pattern and [int] read the decimal digits of any script: the
    second date below is 2024-02-01 in Arabic-Indic digits. *)
Example prefer_newer_other_digits :
  _prefer_newer (lit "2024-01-01")
    [1634; 1632; 1634; 1636; 45; 1632; 1634; 45; 1632; 1633]%N = true /\
  parse_iso [1634; 1632; 1634; 1636; 45; 1632; 1634; 45; 1632; 1633]%N =
    Some {| year := 2024; month := 2; day := 1 |}.
Proof. split; vm_compute; reflexivity. Qed.

Lemma prefer_newer_rule_witness :
  parse_iso (lit "2024-02-01") =
    Some {| year := 2024; month := 2; day := 1 |} /\
  parse_iso (lit "2024-01-01") =
    Some {| year := 2024; month := 1; day := 1 |} /\
  (_prefer_newer (lit "2024-01-01") (lit "2024-02-01") = true <->
   toordinal {| year := 2024; month := 1; day := 1 |} <
   toordinal {| year := 2024; month := 2; day := 1 |}).
Proof.
  split; [reflexivity|]. split; [reflexivity|].
  destruct prefer_newer_rule as [H _].
  destruct (H (lit "2024-01-01") (lit "2024-02-01")) as (_ & _ & H3 & _).
  apply H3.
  - vm_compute. intros [E | E]; discriminate.
  - vm_compute. intros [E | E]; discriminate.
  - reflexivity.
  - reflexivity.
Defined.

(** ** The order of strings *)

Lemma str_ltb_irrefl (a : str) : str_ltb a a = false.
Proof.
  induction a as [|x a IH]; [reflexivity|].
  simpl. rewrite N.ltb_irrefl, N.eqb_refl, IH. reflexivity.
Qed.

Lemma str_ltb_cons x a y b :
  str_ltb (x :: a) (y :: b) = true <->
  (x < y)%N \/ (x = y /\ str_ltb a b = true).
Proof.
  simpl. rewrite orb_true_iff, andb_true_iff, N.ltb_lt, N.eqb_eq. tauto.
Qed.

Lemma str_ltb_trans (a b c : str) :
  str_ltb a b = true -> str_ltb b c = true -> str_ltb a c = true.
Proof.
  revert b c. induction a as [|x a IH]; intros [|y b] [|z c];
    try discriminate; try reflexivity.
  rewrite !str_ltb_cons. intros [H1 | [H1 H1']] [H2 | [H2 H2']].
  - left; lia.
  - left; lia.
  - left; lia.
  - right. split; [lia|]. eapply IH; eassumption.
Qed.

(** Two strings of which neither comes first are the same string. *)
Lemma str_ltb_total (a b : str) :
  str_ltb a b = false -> str_ltb b a = false -> a = b.
Proof.
  revert b. induction a as [|x a IH]; intros [|y b]; try discriminate;
    [reflexivity|].
  simpl. intros H1 H2.
  apply orb_false_elim in H1. destruct H1 as [H1 H1'].
  apply orb_false_elim in H2. destruct H2 as [H2 H2'].
  apply N.ltb_ge in H1, H2. assert (x = y) by lia. subst y.
  rewrite N.eqb_refl in *. simpl in *. f_equal. apply IH; assumption.
Qed.

Lemma str_ltb_asym (a b : str) : str_ltb a b = true -> str_ltb b a = false.
Proof.
  intros H. destruct (str_ltb b a) eqn:E; [|reflexivity].
  pose proof (str_ltb_trans _ _ _ H E) as C.
  rewrite str_ltb_irrefl in C. discriminate.
Qed.

Lemma str_le_trans (a b c : str) : str_le a b -> str_le b c -> str_le a c.
Proof.
  unfold str_le. intros H1 H2.
  destruct (str_ltb c a) eqn:E; [|reflexivity].
  destruct (str_ltb a b) eqn:E1.
  - pose proof (str_ltb_trans _ _ _ E E1) as C. congruence.
  - pose proof (str_ltb_total _ _ E1 H1). subst b. congruence.
Qed.

(** ** Sorting *)

Lemma key_ltb_false (a b : profile) : key_ltb b a = false <-> profile_le a b.
Proof.
  unfold key_ltb, profile_le, str_le.
  rewrite orb_false_iff, andb_false_iff, Z.ltb_ge, Z.eqb_neq.
  split.
  - intros [H1 [H2 | H2]]; [left; lia|].
    destruct (Z.eq_dec (p_articles_count a) (p_articles_count b));
      [right; auto | left; lia].
  - intros [H | [H1 H2]].
    + split; [lia | left; lia].
    + split; [lia | right; exact H2].
Qed.

Lemma key_ltb_true (a b : profile) : key_ltb a b = true -> profile_le a b.
Proof.
  unfold key_ltb, profile_le, str_le.
  rewrite orb_true_iff, andb_true_iff, Z.ltb_lt, Z.eqb_eq.
  intros [H | [H1 H2]]; [left; lia | right].
  split; [lia | apply str_ltb_asym; exact H2].
Qed.

Lemma profile_le_trans (a b c : profile) :
  profile_le a b -> profile_le b c -> profile_le a c.
Proof.
  unfold profile_le. intros [H1 | [H1 H1']] [H2 | [H2 H2']].
  - left; lia.
  - left; lia.
  - left; lia.
  - right. split; [lia | eapply str_le_trans; eassumption].
Qed.

Lemma insert_sorted_In x l p : In p (insert_sorted x l) <-> p = x \/ In p l.
Proof.
  induction l as [|y r IH]; simpl; [intuition|].
  destruct (key_ltb y x); simpl; [rewrite IH|]; intuition.
Qed.

Lemma sort_profiles_In l p : In p (sort_profiles l) <-> In p l.
Proof.
  induction l as [|x r IH]; simpl; [tauto|].
  rewrite insert_sorted_In, IH. intuition.
Qed.

Lemma insert_sorted_sorted x l :
  StronglySorted profile_le l -> StronglySorted profile_le (insert_sorted x l).
Proof.
  induction 1 as [|y r Hr IH Hy]; simpl.
  - constructor; constructor.
  - destruct (key_ltb y x) eqn:E.
    + constructor; [exact IH|].
      apply Forall_forall. intros p Hp. apply insert_sorted_In in Hp.
      destruct Hp as [-> | Hp].
      * apply key_ltb_true; exact E.
      * rewrite Forall_forall in Hy. apply Hy; exact Hp.
    + apply key_ltb_false in E. constructor.
      * constructor; assumption.
      * constructor; [exact E|].
        rewrite Forall_forall in *. intros p Hp.
        eapply profile_le_trans; [exact E | apply Hy; exact Hp].
Qed.

Lemma sort_profiles_sorted l : StronglySorted profile_le (sort_profiles l).
Proof.
  induction l as [|x r IH]; simpl; [constructor|].
  apply insert_sorted_sorted; exact IH.
Qed.

Lemma insert_sorted_perm x l : Permutation (insert_sorted x l) (x :: l).
Proof.
  induction l as [|y r IH]; cbn [insert_sorted]; [apply Permutation_refl|].
  destruct (key_ltb y x); [|apply Permutation_refl].
  eapply perm_trans; [apply perm_skip, IH | apply perm_swap].
Qed.

Lemma sort_profiles_perm l : Permutation (sort_profiles l) l.
Proof.
  induction l as [|x r IH]; cbn [sort_profiles]; [apply Permutation_refl|].
  eapply perm_trans; [apply insert_sorted_perm | apply perm_skip, IH].
Qed.

Lemma finalize_profiles_eq pm :
  snd (_finalize_profiles pm) = sort_profiles (snd (finalize_loop pm)).
Proof.
  unfold _finalize_profiles. destruct (finalize_loop pm) as [pm' out].
  cbn [snd]. apply firstn_all2. apply Nat.le_max_r.
Qed.

Lemma finalize_loop_has (pm : dict entry) (k : str) (v : entry)
    (p : profile) :
  In (k, v) pm -> snd (finalize_entry v) = Some p ->
  In p (snd (finalize_loop pm)).
Proof.
  induction pm as [|[k0 v0] rest IH]; [intros []|].
  cbn [finalize_loop]. intros Hin Hp.
  destruct (finalize_entry v0) as [v0' out] eqn:E0.
  destruct (finalize_loop rest) as [rest' ps]. cbn [snd] in *.
  destruct Hin as [Heq | Hin].
  - injection Heq as -> ->. rewrite E0 in Hp. cbn [snd] in Hp. subst out.
    left; reflexivity.
  - specialize (IH Hin Hp). destruct out; [right|]; exact IH.
Qed.

(** C6: the list that [_finalize_profiles] returns is in descending order
    of article count and, where counts are equal, in ascending order of
    name: every profile is in that order with every later one.  It is the
    list that the loop built, reordered, and it holds the profile of
    every entry that the loop did not drop. *)
Theorem finalize_profiles_sorted (pm : dict entry) :
  StronglySorted profile_le (snd (_finalize_profiles pm)) /\
  Permutation (snd (_finalize_profiles pm)) (snd (finalize_loop pm)) /\
  (forall k v p,
     In (k, v) pm -> snd (finalize_entry v) = Some p ->
     In p (snd (_finalize_profiles pm))).
Proof.
  rewrite finalize_profiles_eq. split; [|split].
  - apply sort_profiles_sorted.
  - apply sort_profiles_perm.
  - intros k v p Hin Hp. apply sort_profiles_In.
    eapply finalize_loop_has; eassumption.
Qed.

Lemma finalize_profiles_sorted_witness :
  List.map (fun p => (p_name p, p_articles_count p))
    (snd (_finalize_profiles bob_alice_carol)) =
  [(lit "Alice", 5); (lit "Bob", 2); (lit "Carol", 2)] /\
  List.map (fun p => (p_name p, p_articles_count p))
    (snd (finalize_loop bob_alice_carol)) =
  [(lit "Carol", 2); (lit "Alice", 5); (lit "Bob", 2)] /\
  StronglySorted profile_le (snd (_finalize_profiles bob_alice_carol)) /\
  Permutation (snd (_finalize_profiles bob_alice_carol))
              (snd (finalize_loop bob_alice_carol)) /\
  (forall k v p,
     In (k, v) bob_alice_carol -> snd (finalize_entry v) = Some p ->
     In p (snd (_finalize_profiles bob_alice_carol))).
Proof.
  split; [reflexivity|]. split; [reflexivity|].
  apply (finalize_profiles_sorted bob_alice_carol).
Defined.

(** ** Finalisation *)

Lemma finalize_entry_out (v : entry) (p : profile) :
  snd (finalize_entry v) = Some p ->
  p_name p = name v /\ p_articles_count p = articles_count v /\
  str_in (lower (strip (name v))) blacklist = false.
Proof.
  unfold finalize_entry.
  destruct (is_empty (lower (strip (name v))) ||
            str_in (lower (strip (name v))) blacklist) eqn:E;
    [discriminate|].
  apply orb_false_elim in E. destruct E as [_ E].
  cbn [snd]. intros H. injection H as <-. cbn [p_name p_articles_count].
  destruct (beat_counts v) as [[|x r]|]; auto.
Qed.

Lemma finalize_loop_out (pm : dict entry) (p : profile) :
  In p (snd (finalize_loop pm)) ->
  exists k v, In (k, v) pm /\ snd (finalize_entry v) = Some p.
Proof.
  induction pm as [|[k v] rest IH]; simpl; [tauto|].
  destruct (finalize_entry v) as [v' out] eqn:Ev.
  destruct (finalize_loop rest) as [rest' ps]. cbn [snd] in *.
  intros H.
  assert (Hcase : out = Some p \/ In p ps).
  { destruct out; [destruct H as [-> | H]|]; auto. }
  destruct Hcase as [-> | Hin].
  - exists k, v. rewrite Ev. auto.
  - destruct (IH Hin) as (k0 & v0 & H0 & H1). exists k0, v0. auto.
Qed.

Lemma finalize_profiles_out (pm : dict entry) (p : profile) :
  In p (snd (_finalize_profiles pm)) ->
  exists k v, In (k, v) pm /\ snd (finalize_entry v) = Some p.
Proof.
  rewrite finalize_profiles_eq, sort_profiles_In. apply finalize_loop_out.
Qed.

Lemma lower_c_space c : is_space (lower_c c) = is_space c.
Proof. exact (title_char_space true c). Qed.

Lemma no_space_lower s : no_space (lower s) = no_space s.
Proof.
  unfold no_space, lower. induction s as [|c r IH]; [reflexivity|].
  simpl. rewrite lower_c_space, IH. reflexivity.
Qed.

Lemma no_space_strip s : no_space s = true -> strip s = s.
Proof.
  intros H. apply strip_fixed.
  - destruct s as [|c r]; [reflexivity|]. unfold no_space in H. simpl in *.
    apply andb_prop in H. tauto.
  - induction s as [|c r IH]; [reflexivity|]. unfold no_space in *.
    simpl in *. apply andb_prop in H. destruct H as [H1 H2].
    destruct r; [exact H1 | apply IH; exact H2].
Qed.

Lemma blacklist_no_space : forallb no_space blacklist = true.
Proof. reflexivity. Qed.

Lemma blacklisted_name_is_trimmed (n : str) :
  In (lower n) blacklist -> strip n = n.
Proof.
  intros H. apply no_space_strip. rewrite <- no_space_lower.
  pose proof blacklist_no_space as B. rewrite forallb_forall in B.
  apply B; exact H.
Qed.

(** C5: no profile of the returned list bears a name whose lower-case
    form is one of staff, editorial, team, contributors, unknown, s; in
    particular none is named "Staff", whatever its article count. *)
Theorem finalize_drops_blacklisted (pm : dict entry) (p : profile) :
  In p (snd (_finalize_profiles pm)) ->
  ~ In (lower (p_name p)) blacklist /\ p_name p <> lit "Staff".
Proof.
  intros H. destruct (finalize_profiles_out pm p H) as (k & v & _ & Hv).
  destruct (finalize_entry_out v p Hv) as (Hn & _ & Hb).
  assert (Hnot : ~ In (lower (p_name p)) blacklist).
  { intros Hin. rewrite Hn in Hin.
    pose proof (blacklisted_name_is_trimmed _ Hin) as Hs.
    rewrite Hs in Hb. apply str_in_In in Hin. congruence. }
  split; [exact Hnot|].
  intros E. apply Hnot. rewrite E. vm_compute. tauto.
Qed.

(** ** The article count *)

Section DictForall.
Variable V : Type.
Variable Q : V -> Prop.

Lemma every_value_get (d : dict V) k v :
  every_value Q d -> dict_get k d = Some v -> Q v.
Proof.
  induction 1 as [|[k' v'] d' Hv Hd IH]; simpl; [discriminate|].
  destruct (str_eqb k k'); [|exact IH].
  intros H; injection H as <-. exact Hv.
Qed.

Lemma every_value_set (d : dict V) k v :
  every_value Q d -> Q v -> every_value Q (dict_set k v d).
Proof.
  intros Hd Hq. induction Hd as [|[k' v'] d' Hv Hd IH]; simpl.
  - constructor; [exact Hq | constructor].
  - destruct (str_eqb k k'); constructor; auto.
Qed.

End DictForall.

Arguments every_value_get {V Q} d k v.
Arguments every_value_set {V Q} d k v.

Lemma merge_author_counted url title pub_date section author pm :
  every_value counted pm ->
  every_value counted
    (fst (merge_author url title pub_date section author pm)).
Proof.
  intros H. unfold merge_author.
  destruct (is_empty (normalize_name author)); [exact H|].
  destruct (dict_get (lower (normalize_name author)) pm) as [e|] eqn:Eg.
  - pose proof (every_value_get _ _ _ H Eg) as He. unfold counted in He.
    destruct (is_empty section).
    + cbn [fst]. apply every_value_set; [exact H|].
      destruct (_prefer_newer _ _); unfold counted; simpl; lia.
    + cbn [beat_counts set_articles_count].
      destruct (beat_counts e) as [bc|]; cbn [fst];
        (apply every_value_set; [exact H|]);
        [destruct (_prefer_newer _ _)|]; unfold counted; simpl; lia.
  - cbn [fst]. apply every_value_set; [exact H|]. unfold counted; simpl; lia.
Qed.

Lemma merge_authors_counted url title pub_date section l : forall pm,
  every_value counted pm ->
  every_value counted (fst (merge_authors url title pub_date section l pm)).
Proof.
  induction l as [|a r IH]; intros pm H; [exact H|].
  simpl. pose proof (merge_author_counted url title pub_date section a pm H) as H1.
  destruct (merge_author url title pub_date section a pm) as [pm' [|]];
    cbn [fst] in *; [apply IH; exact H1 | exact H1].
Qed.

Lemma finalize_entry_counted (v : entry) :
  counted v -> counted (fst (finalize_entry v)).
Proof.
  unfold finalize_entry, counted.
  destruct (_ || _); [auto|]. cbn [fst].
  destruct (beat_counts v) as [[|x r]|]; auto.
Qed.

Lemma finalize_loop_counted (pm : dict entry) :
  every_value counted pm -> every_value counted (fst (finalize_loop pm)).
Proof.
  induction 1 as [|[k v] rest Hv Hr IH]; simpl; [constructor|].
  pose proof (finalize_entry_counted v Hv) as H1.
  destruct (finalize_entry v) as [v' out].
  destruct (finalize_loop rest) as [rest' ps]. cbn [fst] in *.
  constructor; assumption.
Qed.

Lemma finalize_profiles_counted (pm : dict entry) :
  every_value counted pm -> every_value counted (fst (_finalize_profiles pm)).
Proof.
  intros H. pose proof (finalize_loop_counted pm H) as H1.
  unfold _finalize_profiles. destruct (finalize_loop pm). exact H1.
Qed.

Lemma finalize_profiles_count_ge_1 (pm : dict entry) (p : profile) :
  every_value counted pm -> In p (snd (_finalize_profiles pm)) ->
  1 <= p_articles_count p.
Proof.
  intros H Hp. destruct (finalize_profiles_out pm p Hp) as (k & v & Hin & Hv).
  destruct (finalize_entry_out v p Hv) as (_ & -> & _).
  unfold every_value in H. rewrite Forall_forall in H.
  exact (H (k, v) Hin).
Qed.

Section PipelineFacts.
Variable OUTLET : option str.
Variable web : site.
Variable base_url : str.

Lemma visit_counted url st :
  every_value counted (profiles_map st) ->
  every_value counted (profiles_map (visit OUTLET web base_url url st)).
Proof.
  intros H. unfold visit.
  destruct (negb (allowed_by_robots web url)); [exact H|].
  destruct (get web url) as [|code soup]; [exact H|].
  destruct (negb (code =? 200)); [exact H|].
  pose proof (merge_authors_counted url (page_title soup) (pub_date soup)
                (normalize_beat (section soup))
                (extract_authors (authors soup)) (profiles_map st) H) as H1.
  destruct (merge_authors _ _ _ _ _ _) as [pm [|]]; cbn [fst] in H1.
  - destruct (_ =? 0); [|exact H1].
    pose proof (finalize_profiles_counted pm H1) as H2.
    destruct (_finalize_profiles pm). exact H2.
  - exact H1.
Qed.

Lemma visit_all_counted min_profiles urls : forall st,
  every_value counted (profiles_map st) ->
  every_value counted
    (profiles_map (visit_all OUTLET web base_url min_profiles urls st)).
Proof.
  induction urls as [|u r IH]; intros st H; [exact H|].
  simpl. destruct (_ >=? _); [exact H|]. apply IH, visit_counted, H.
Qed.

(** C10: every profile that [extract_profiles] returns has an article
    count of at least 1. *)
Theorem articles_count_at_least_one (urls : list str) (min_profiles : Z)
    (p : profile) :
  In p (extract_profiles OUTLET web base_url urls min_profiles) ->
  1 <= p_articles_count p.
Proof.
  unfold extract_profiles. apply finalize_profiles_count_ge_1.
  apply visit_all_counted. constructor.
Qed.

Lemma visit_all_app min_profiles pre rest : forall st,
  visit_all OUTLET web base_url min_profiles (pre ++ rest) st =
  visit_all OUTLET web base_url min_profiles rest
    (visit_all OUTLET web base_url min_profiles pre st).
Proof.
  induction pre as [|u r IH]; intros st; [reflexivity|].
  simpl. destruct (_ >=? _) eqn:E; [|apply IH].
  destruct rest; simpl; [reflexivity|]. rewrite E. reflexivity.
Qed.

(** C9: once the profile map holds [min_profiles] keys (30 in the call of
    [main] and by default), the loop is over: the URLs that remain add no
    request, no write and no profile. *)
Theorem extract_profiles_stops_at_min (min_profiles : Z) (pre rest : list str) :
  min_profiles <=
    Z.of_nat (List.length
      (profiles_map (visit_all OUTLET web base_url min_profiles pre start))) ->
  visit_all OUTLET web base_url min_profiles (pre ++ rest) start =
  visit_all OUTLET web base_url min_profiles pre start /\
  extract_profiles OUTLET web base_url (pre ++ rest) min_profiles =
  extract_profiles OUTLET web base_url pre min_profiles.
Proof.
  intros H.
  assert (E : visit_all OUTLET web base_url min_profiles (pre ++ rest) start =
              visit_all OUTLET web base_url min_profiles pre start).
  { rewrite visit_all_app. destruct rest as [|u r]; [reflexivity|].
    simpl. destruct (_ >=? _) eqn:G; [reflexivity|]. lia. }
  split; [exact E|]. unfold extract_profiles. rewrite E. reflexivity.
Qed.

End PipelineFacts.


(** ** Merging observations *)

Lemma dict_get_set_same (V : Type) (k : str) (v : V) (d : dict V) :
  dict_get k (dict_set k v d) = Some v.
Proof.
  induction d as [|[k' v'] d' IH]; simpl.
  - rewrite str_eqb_refl. reflexivity.
  - destruct (str_eqb k k') eqn:E; simpl; rewrite E; [reflexivity | exact IH].
Qed.

Lemma dict_get_set_other (V : Type) (k k' : str) (v : V) (d : dict V) :
  str_eqb k' k = false -> dict_get k' (dict_set k v d) = dict_get k' d.
Proof.
  intros Hk. induction d as [|[k0 v0] d' IH]; simpl.
  - rewrite Hk. reflexivity.
  - destruct (str_eqb k k0) eqn:E; simpl.
    + apply str_eqb_eq in E. subst k0. rewrite Hk. reflexivity.
    + rewrite IH. reflexivity.
Qed.

(** A first observation of a name creates its entry, with count 1 and
    the observed beat counted once. *)
Lemma merge_author_first url title pub_date section author pm :
  is_empty (normalize_name author) = false ->
  dict_get (lower (normalize_name author)) pm = None ->
  merge_author url title pub_date section author pm =
  (dict_set (lower (normalize_name author))
     {| name := normalize_name author;
        beat_counts := Some (if is_empty section then [] else [(section, 1)]);
        beat := or_unknown section;
        latest_article := or_unknown title;
        article_url := url;
        publication_date := or_unknown pub_date;
        articles_count := 1 |} pm, Done).
Proof. intros H1 H2. unfold merge_author. rewrite H1, H2. reflexivity. Qed.

(** A later observation of a name whose entry still has its beat counts
    adds one to the article count and one to the count of the beat. *)
Lemma merge_author_again url title pub_date section author pm e bc :
  is_empty (normalize_name author) = false ->
  dict_get (lower (normalize_name author)) pm = Some e ->
  beat_counts e = Some bc ->
  exists e',
    merge_author url title pub_date section author pm =
      (dict_set (lower (normalize_name author)) e' pm, Done) /\
    name e' = name e /\
    articles_count e' = articles_count e + 1 /\
    beat_counts e' =
      Some (if is_empty section then bc
            else dict_set section
                   (match dict_get section bc with
                    | Some n => n
                    | None => 0
                    end + 1) bc).
Proof.
  intros H1 H2 H3. unfold merge_author. rewrite H1, H2.
  cbn [beat_counts set_articles_count]. rewrite H3.
  destruct (is_empty section).
  - eexists. split; [reflexivity|].
    destruct (_prefer_newer _ _); simpl; auto.
  - eexists. split; [reflexivity|].
    destruct (_prefer_newer _ _); simpl; auto.
Qed.

(** A later observation of a name whose entry has lost its beat counts
    adds one to the article count and raises. *)
Lemma merge_author_after_pop url title pub_date section author pm e :
  is_empty (normalize_name author) = false ->
  dict_get (lower (normalize_name author)) pm = Some e ->
  beat_counts e = None ->
  is_empty section = false ->
  merge_author url title pub_date section author pm =
  (dict_set (lower (normalize_name author))
     (set_articles_count (articles_count e + 1) e) pm, Raised).
Proof.
  intros H1 H2 H3 H4. unfold merge_author. rewrite H1, H2, H4.
  cbn [beat_counts set_articles_count]. rewrite H3. reflexivity.
Qed.

Lemma finalize_entry_kept (v : entry) :
  is_empty (lower (strip (name v))) = false ->
  str_in (lower (strip (name v))) blacklist = false ->
  exists v' p,
    finalize_entry v = (v', Some p) /\
    p_name p = name v /\ p_articles_count p = articles_count v.
Proof.
  intros H1 H2. unfold finalize_entry. rewrite H1, H2. cbn [orb].
  eexists. eexists. split; [reflexivity|].
  cbn [p_name p_articles_count].
  destruct (beat_counts v) as [[|x r]|]; auto.
Qed.

Lemma normalize_name_trimmed (a : str) :
  strip (normalize_name a) = normalize_name a.
Proof.
  unfold normalize_name. destruct a as [|c r]; [reflexivity|].
  destruct (_ <=? _)%nat; [reflexivity|].
  destruct (tidy_title _ (name_core_tidy (c :: r))) as (H1 & H2 & _).
  apply strip_fixed; assumption.
Qed.

Lemma lower_empty (s : str) : is_empty (lower s) = is_empty s.
Proof. destruct s; reflexivity. Qed.

Section ThreePages.
Variable OUTLET : option str.
Variable web : site.
Variable base_url : str.

Lemma merge_authors_single url title pub_date section a pm pm' :
  merge_author url title pub_date section a pm = (pm', Done) ->
  merge_authors url title pub_date section [a] pm = (pm', Done).
Proof. intros H. simpl. rewrite H. reflexivity. Qed.

Lemma visit_done url st soup pm' :
  allowed_by_robots web url = true ->
  get web url = Http 200 soup ->
  merge_authors url (page_title soup) (pub_date soup)
    (normalize_beat (section soup)) (extract_authors (authors soup))
    (profiles_map st) = (pm', Done) ->
  ((processed st + 1) mod WRITE_PROGRESS_EVERY =? 0) = false ->
  profiles_map (visit OUTLET web base_url url st) = pm' /\
  processed (visit OUTLET web base_url url st) = processed st + 1.
Proof.
  intros H1 H2 H3 H4. unfold visit. rewrite H1, H2. cbn [negb].
  change (200 =? 200) with true. cbn [negb]. rewrite H3, H4.
  split; reflexivity.
Qed.

(** C8, as amended: three fetched pages whose extracted authors are a, a
    and b, where a and b are ASCII names that normalize to non-empty
    names that differ in lower case and are not blacklisted, yield
    exactly two profiles: the normalized a with count 2, then the
    normalized b with count 1. *)
Theorem three_pages_two_profiles (u1 u2 u3 : str) (p1 p2 p3 : page)
    (a b : str) :
  forallb is_ascii a = true ->
  forallb is_ascii b = true ->
  allowed_by_robots web u1 = true ->
  allowed_by_robots web u2 = true ->
  allowed_by_robots web u3 = true ->
  get web u1 = Http 200 p1 ->
  get web u2 = Http 200 p2 ->
  get web u3 = Http 200 p3 ->
  extract_authors (authors p1) = [a] ->
  extract_authors (authors p2) = [a] ->
  extract_authors (authors p3) = [b] ->
  is_empty (normalize_name a) = false ->
  is_empty (normalize_name b) = false ->
  str_eqb (lower (normalize_name b)) (lower (normalize_name a)) = false ->
  str_in (lower (normalize_name a)) blacklist = false ->
  str_in (lower (normalize_name b)) blacklist = false ->
  List.map (fun p => (p_name p, p_articles_count p))
    (extract_profiles OUTLET web base_url [u1; u2; u3] 30) =
  [(normalize_name a, 2); (normalize_name b, 1)].
Proof.
  intros _ _ R1 R2 R3 G1 G2 G3 A1 A2 A3 Na Nb Nab Ba Bb.
  set (ka := lower (normalize_name a)) in *.
  set (kb := lower (normalize_name b)) in *.
  (* the first page *)
  pose proof (merge_author_first u1 (page_title p1) (pub_date p1)
                (normalize_beat (section p1)) a [] Na eq_refl) as M1.
  fold ka in M1. cbn [dict_set] in M1.
  apply merge_authors_single in M1. rewrite <- A1 in M1.
  destruct (visit_done u1 start p1 _ R1 G1 M1 eq_refl) as [P1 C1].
  set (st1 := visit OUTLET web base_url u1 start) in *.
  (* the second page *)
  assert (Hg : dict_get ka (profiles_map st1) =
               Some {| name := normalize_name a;
                       beat_counts :=
                         Some (if is_empty (normalize_beat (section p1))
                               then []
                               else [(normalize_beat (section p1), 1)]);
                       beat := or_unknown (normalize_beat (section p1));
                       latest_article := or_unknown (page_title p1);
                       article_url := u1;
                       publication_date := or_unknown (pub_date p1);
                       articles_count := 1 |}).
  { rewrite P1. cbn [dict_get]. rewrite str_eqb_refl. reflexivity. }
  destruct (merge_author_again u2 (page_title p2) (pub_date p2)
              (normalize_beat (section p2)) a (profiles_map st1) _ _
              Na Hg eq_refl) as (e2 & M2 & Hn2 & Hc2 & _).
  fold ka in M2. rewrite P1 in M2 at 2. cbn [dict_set] in M2.
  rewrite str_eqb_refl in M2.
  apply merge_authors_single in M2. rewrite <- A2 in M2.
  assert (C1' : ((processed st1 + 1) mod WRITE_PROGRESS_EVERY =? 0) = false)
    by (rewrite C1; reflexivity).
  destruct (visit_done u2 st1 p2 _ R2 G2 M2 C1') as [P2 C2].
  set (st2 := visit OUTLET web base_url u2 st1) in *.
  cbn [name articles_count] in Hn2, Hc2.
  (* the third page *)
  assert (Hg3 : dict_get kb (profiles_map st2) = None).
  { rewrite P2. cbn [dict_get]. rewrite Nab. reflexivity. }
  pose proof (merge_author_first u3 (page_title p3) (pub_date p3)
                (normalize_beat (section p3)) b (profiles_map st2) Nb Hg3)
    as M3.
  fold kb in M3. rewrite P2 in M3 at 2. cbn [dict_set] in M3.
  assert (Nab' : str_eqb kb ka = false) by exact Nab.
  rewrite Nab' in M3.
  apply merge_authors_single in M3. rewrite <- A3 in M3.
  assert (C2' : ((processed st2 + 1) mod WRITE_PROGRESS_EVERY =? 0) = false)
    by (rewrite C2, C1; reflexivity).
  destruct (visit_done u3 st2 p3 _ R3 G3 M3 C2') as [P3 _].
  (* the loop *)
  unfold extract_profiles.
  assert (L : visit_all OUTLET web base_url 30 [u1; u2; u3] start =
              visit OUTLET web base_url u3 st2).
  { cbn [visit_all]. change (profiles_map start) with (@nil (str * entry)).
    cbn [List.length]. change (Z.of_nat 0 >=? 30) with false. cbv iota.
    fold st1. rewrite P1. cbn [List.length].
    change (Z.of_nat 1 >=? 30) with false. cbv iota.
    fold st2. rewrite P2. cbn [List.length].
    change (Z.of_nat 1 >=? 30) with false. cbv iota. reflexivity. }
  rewrite L, P3, finalize_profiles_eq.
  (* finalisation *)
  assert (Ka : is_empty (lower (strip (name e2))) = false)
    by (rewrite Hn2, normalize_name_trimmed, lower_empty; exact Na).
  assert (Ka' : str_in (lower (strip (name e2))) blacklist = false)
    by (rewrite Hn2, normalize_name_trimmed; exact Ba).
  destruct (finalize_entry_kept e2 Ka Ka') as (va & pa & Fa & Fna & Fca).
  set (eb := {| name := normalize_name b;
                beat_counts :=
                  Some (if is_empty (normalize_beat (section p3)) then []
                        else [(normalize_beat (section p3), 1)]);
                beat := or_unknown (normalize_beat (section p3));
                latest_article := or_unknown (page_title p3);
                article_url := u3;
                publication_date := or_unknown (pub_date p3);
                articles_count := 1 |}) in *.
  assert (Kb : is_empty (lower (strip (name eb))) = false)
    by (cbn [name eb]; rewrite normalize_name_trimmed, lower_empty; exact Nb).
  assert (Kb' : str_in (lower (strip (name eb))) blacklist = false)
    by (cbn [name eb]; rewrite normalize_name_trimmed; exact Bb).
  destruct (finalize_entry_kept eb Kb Kb') as (vb & pb & Fb & Fnb & Fcb).
  cbn [finalize_loop]. rewrite Fa, Fb. cbn [snd sort_profiles insert_sorted].
  assert (K : key_ltb pb pa = false).
  { unfold key_ltb. rewrite Fca, Fcb, Hc2. reflexivity. }
  rewrite K. cbn [List.map]. rewrite Fna, Fca, Fnb, Fcb, Hn2, Hc2.
  reflexivity.
Qed.

End ThreePages.

(** ** The pipeline on the stub sites *)

(** C8, as stated, fails: a one-letter name is dropped by the cleaning
    loop of [extract_authors] and by [normalize_name], so pages authored
    A, A and B all count for the placeholder Unknown, which finalisation
    drops. *)
Lemma one_letter_authors_yield_nothing :
  extract_authors [lit "A"] = [lit "Unknown"] /\
  normalize_name (lit "A") = [] /\
  extract_profiles None site_a_a_b (lit "https://example.com") three_urls 30
    = [].
Proof. repeat split; vm_compute; reflexivity. Qed.

Lemma three_pages_two_profiles_witness :
  forallb is_ascii (lit "Alice") = true /\
  forallb is_ascii (lit "Bob") = true /\
  extract_authors (authors (article "Alice" "One" "2024-01-01" "Politics")) =
    [lit "Alice"] /\
  extract_authors (authors (article "Bob" "Three" "2024-01-03" "Sports")) =
    [lit "Bob"] /\
  List.map (fun p => (p_name p, p_articles_count p))
    (extract_profiles None site_alice_alice_bob (lit "https://example.com")
       [lit "/1"; lit "/2"; lit "/3"] 30) =
  [(normalize_name (lit "Alice"), 2); (normalize_name (lit "Bob"), 1)].
Proof.
  split; [reflexivity|]. split; [reflexivity|].
  split; [reflexivity|]. split; [reflexivity|].
  apply (three_pages_two_profiles None site_alice_alice_bob
           (lit "https://example.com") (lit "/1") (lit "/2") (lit "/3")
           (article "Alice" "One" "2024-01-01" "Politics")
           (article "Alice" "Two" "2024-01-02" "Politics")
           (article "Bob" "Three" "2024-01-03" "Sports")
           (lit "Alice") (lit "Bob"));
    reflexivity.
Defined.

(** The sample of the specification: politics twice and sports once give
    one profile, on politics, with three articles. *)
Example three_observations_politics :
  List.map (fun p => (p_name p, p_beat p, p_articles_count p))
    (extract_profiles None site_three_beats (lit "https://example.com")
       three_urls 30) =
  [(lit "Jane Doe", lit "Politics", 3)].
Proof. vm_compute. reflexivity. Qed.

(** C4 at the failing input.  The fifth page triggers a progress write;
    [_finalize_profiles] pops [beat_counts] from the live entry, so the
    sixth and seventh observations raise after the article count has been
    incremented.  The author was seen on politics four times and on
    sports three times, and the profile says sports, with seven articles
    and the fifth page as the latest. *)
Theorem beat_counts_lost_after_progress_write :
  pages_on_beat (lit "Politics") seven_pages = 4%nat /\
  pages_on_beat (lit "Sports") seven_pages = 3%nat /\
  extract_profiles None site_seven_pages (lit "https://example.com")
    seven_urls 30 =
  [ {| p_name := lit "Jane Doe";
       p_beat := lit "Sports";
       p_latest_article := lit "Five";
       p_article_url := lit "/5";
       p_publication_date := lit "2024-01-05";
       p_articles_count := 7 |} ].
Proof. repeat split; vm_compute; reflexivity. Qed.

Lemma finalize_drops_blacklisted_witness :
  In {| p_name := lit "Alice"; p_beat := lit "News";
        p_latest_article := lit "Two"; p_article_url := lit "/2";
        p_publication_date := lit "Unknown"; p_articles_count := 1 |}
     (snd (_finalize_profiles staff_and_alice)) /\
  ~ In (lower (lit "Alice")) blacklist /\ lit "Alice" <> lit "Staff".
Proof.
  assert (H : In {| p_name := lit "Alice"; p_beat := lit "News";
                    p_latest_article := lit "Two"; p_article_url := lit "/2";
                    p_publication_date := lit "Unknown";
                    p_articles_count := 1 |}
                 (snd (_finalize_profiles staff_and_alice)))
    by (vm_compute; left; reflexivity).
  split; [exact H|].
  exact (finalize_drops_blacklisted staff_and_alice _ H).
Defined.

Lemma articles_count_at_least_one_witness :
  In alice_two_articles
     (extract_profiles None site_alice_alice_bob (lit "https://example.com")
        three_urls 30) /\
  1 <= p_articles_count alice_two_articles.
Proof.
  assert (H : In alice_two_articles
                (extract_profiles None site_alice_alice_bob
                   (lit "https://example.com") three_urls 30))
    by (vm_compute; left; reflexivity).
  split; [exact H|].
  exact (articles_count_at_least_one None site_alice_alice_bob
           (lit "https://example.com") three_urls 30 alice_two_articles H).
Defined.

Lemma extract_profiles_stops_at_min_witness :
  30 <= Z.of_nat (List.length (profiles_map
          (visit_all None site_thirty_authors (lit "https://example.com") 30
             [lit "/1"] start))) /\
  visit_all None site_thirty_authors (lit "https://example.com") 30
    ([lit "/1"] ++ [lit "/2"]) start =
  visit_all None site_thirty_authors (lit "https://example.com") 30
    [lit "/1"] start /\
  extract_profiles None site_thirty_authors (lit "https://example.com")
    ([lit "/1"] ++ [lit "/2"]) 30 =
  extract_profiles None site_thirty_authors (lit "https://example.com")
    [lit "/1"] 30.
Proof.
  assert (H : 30 <= Z.of_nat (List.length (profiles_map
                (visit_all None site_thirty_authors
                   (lit "https://example.com") 30 [lit "/1"] start))))
    by (vm_compute; discriminate).
  split; [exact H|].
  exact (extract_profiles_stops_at_min None site_thirty_authors
           (lit "https://example.com") 30 [lit "/1"] [lit "/2"] H).
Defined.

(** ** The crawler *)

Section CrawlerFacts.
Variable urljoin : str -> str -> option str.
Variable urlparse : str -> option url_parts.
Variable web : site.

Lemma set_add_Forall (P : str -> Prop) x l :
  Forall P l -> P x -> Forall P (set_add x l).
Proof.
  intros Hl Hx. unfold set_add. destruct (str_in x l); [exact Hl|].
  apply Forall_app. split; [exact Hl | constructor; [exact Hx | constructor]].
Qed.





End CrawlerFacts.



(** ** The checkpoint writer *)

Section CheckpointerFacts.
Variable abspath : str -> str.
Variable tmp_names : list str.
Variable raises : syscall -> bool.

Lemma mkstemp_inner_fresh dir names f tmp :
  mkstemp_inner dir names f = Some tmp -> dict_get tmp f = None.
Proof.
  induction names as [|n r IH]; cbn [mkstemp_inner]; [discriminate|].
  destruct (dict_get (path_join dir (tmp_prefix ++ n)) f) eqn:E; [exact IH|].
  intros H; injection H as <-. exact E.
Qed.

(** While another file is written, the destination keeps its content in
    every state, and the written file grows by the chunks. *)
Lemma write_chunks_elsewhere call file dest (P : dict str -> Prop) chunks :
  str_eqb dest file = false ->
  (forall f c, P f -> P (append_file file c f)) ->
  forall k d d' c0,
    Forall P (observed d) -> P (files d) ->
    dict_get file (files d) = Some c0 ->
    write_chunks raises call file k chunks d = (d', Done) ->
    Forall P (observed d') /\ P (files d') /\
    dict_get file (files d') = Some (c0 ++ List.concat chunks).
Proof.
  intros Hne Hstep. induction chunks as [|c r IH]; intros k d d' c0 Ho Hf Hc.
  - simpl. intros E; injection E as <-. rewrite app_nil_r. auto.
  - cbn [write_chunks]. destruct (raises (call k)); [discriminate|].
    intros E. apply IH with (c0 := c0 ++ c) in E.
    + cbn [List.concat]. rewrite app_assoc. exact E.
    + cbn [commit observed]. apply Forall_app. split; [exact Ho|].
      constructor; [apply Hstep; exact Hf | constructor].
    + cbn [commit files]. apply Hstep; exact Hf.
    + cbn [commit files]. unfold append_file. rewrite Hc.
      apply dict_get_set_same.
Qed.

(** C1, as amended: when no step of the temporary-file path raises, and
    the temporary file is not the destination itself, every state of the
    disk during the call holds at the destination either what it held
    before the call or the whole new text, and the call ends with the
    whole new text there. *)
Theorem atomic_write_old_or_new (path : str) (chunks : list str)
    (f0 : dict str) :
  snd (write_via_tmp abspath tmp_names raises path chunks (disk_of f0)) =
    Done ->
  mkstemp_inner (abspath (dir_of path)) tmp_names f0 <> Some path ->
  (forall f,
     In f (observed (_atomic_write_json abspath tmp_names raises path chunks
                       (disk_of f0))) ->
     dict_get path f = dict_get path f0 \/
     dict_get path f = Some (List.concat chunks)) /\
  dict_get path
    (files (_atomic_write_json abspath tmp_names raises path chunks
              (disk_of f0))) = Some (List.concat chunks).
Proof.
  unfold _atomic_write_json, write_via_tmp. cbn [files disk_of].
  destruct (raises Mkstemp); [discriminate|].
  destruct (mkstemp_inner (abspath (dir_of path)) tmp_names f0) as [tmp|] eqn:Em;
    [|discriminate].
  intros Hdone Hne.
  assert (Hpt : str_eqb path tmp = false).
  { apply str_eqb_neq. intros ->. apply Hne. reflexivity. }
  set (P := fun f : dict str => dict_get path f = dict_get path f0).
  assert (Hstep : forall f c, P f -> P (append_file tmp c f)).
  { intros f c Hf. unfold P, append_file in *.
    rewrite dict_get_set_other; assumption. }
  set (d1 := commit (dict_set tmp [] f0) (disk_of f0)) in *.
  assert (H1 : P (files d1)).
  { unfold P, d1. cbn [commit files]. apply dict_get_set_other; exact Hpt. }
  assert (Ho1 : Forall P (observed d1)).
  { unfold d1. cbn [commit observed disk_of app].
    constructor; [reflexivity|]. constructor; [exact H1 | constructor]. }
  assert (Hc1 : dict_get tmp (files d1) = Some []).
  { unfold d1. cbn [commit files]. apply dict_get_set_same. }
  destruct (write_chunks raises WriteTmp tmp 0 chunks d1) as [d2 o] eqn:Ew.
  destruct o; [|discriminate].
  destruct (write_chunks_elsewhere WriteTmp tmp path P chunks Hpt Hstep
              0%nat d1 d2 [] Ho1 H1 Hc1 Ew) as (Ho2 & H2 & Hc2).
  destruct (raises Fsync); [discriminate|].
  destruct (raises Replace); [discriminate|].
  cbn [app] in Hc2.
  assert (Hfin : dict_get path (rename tmp path (files d2)) =
                 Some (List.concat chunks)).
  { unfold rename. rewrite Hc2. apply dict_get_set_same. }
  split; [|exact Hfin].
  cbn [commit observed]. intros f Hin. apply in_app_or in Hin.
  destruct Hin as [Hin | [<- | []]].
  - left. rewrite Forall_forall in Ho2. exact (Ho2 f Hin).
  - right. exact Hfin.
Qed.

End CheckpointerFacts.

(** C1, as stated, fails: when the temporary file cannot be created the
    handler opens the destination for writing, which empties it, and
    writes the text piece by piece; the destination then holds, in turn,
    nothing and two truncated texts. *)
Lemma direct_write_truncates :
  observed (_atomic_write_json (fun p => p) [lit "k3x9"] mkstemp_fails
              data_file new_chunks (disk_of old_disk)) =
  [ [(data_file, lit "{old}")];
    [(data_file, lit "")];
    [(data_file, lit "{")];
    [(data_file, lit "{new")];
    [(data_file, lit "{new}")] ] /\
  lit "" <> lit "{old}" /\ lit "" <> List.concat new_chunks /\
  lit "{new" <> lit "{old}" /\ lit "{new" <> List.concat new_chunks.
Proof. repeat split; vm_compute; congruence. Qed.

Lemma atomic_write_old_or_new_witness :
  (forall f,
     In f (observed (_atomic_write_json (fun p => p) [lit "k3x9"] no_failure
                       data_file new_chunks (disk_of old_disk))) ->
     dict_get data_file f = dict_get data_file old_disk \/
     dict_get data_file f = Some (List.concat new_chunks)) /\
  dict_get data_file
    (files (_atomic_write_json (fun p => p) [lit "k3x9"] no_failure
              data_file new_chunks (disk_of old_disk))) =
  Some (List.concat new_chunks).
Proof.
  apply (atomic_write_old_or_new (fun p => p) [lit "k3x9"] no_failure
           data_file new_chunks old_disk).
  - reflexivity.
  - vm_compute. discriminate.
Defined.

(* ================================================================== *)
(** * Further properties of the code *)
(* ================================================================== *)

(** ** The shape of a normalized name *)

(** X1: the normalized form of an ASCII name is empty or has two
    characters or more, no whitespace at either end, single spaces only,
    none of the zero-width characters or punctuation marks that
    [normalize_name] removes, and is left unchanged by [title]. *)
Theorem normalize_name_shape (s : str) :
  forallb is_ascii s = true ->
  normalize_name s = [] \/
  ((2 <= List.length (normalize_name s))%nat /\
   tidy (normalize_name s) /\
   title (normalize_name s) = normalize_name s).
Proof.
  intros _. unfold normalize_name. destruct s as [|c r]; [left; reflexivity|].
  destruct (List.length (name_core (c :: r)) <=? 1)%nat eqn:E;
    [left; reflexivity|].
  right. apply Nat.leb_gt in E. split; [|split].
  - unfold title. rewrite title_from_length. lia.
  - apply tidy_title, name_core_tidy.
  - unfold title. apply title_from_idem.
Qed.

Lemma normalize_name_shape_witness :
  forallb is_ascii (lit "By:  jane  o'neil.") = true /\
  (normalize_name (lit "By:  jane  o'neil.") = [] \/
   ((2 <= List.length (normalize_name (lit "By:  jane  o'neil.")))%nat /\
    tidy (normalize_name (lit "By:  jane  o'neil.")) /\
    title (normalize_name (lit "By:  jane  o'neil.")) =
      normalize_name (lit "By:  jane  o'neil."))).
Proof.
  split; [reflexivity|].
  apply (normalize_name_shape (lit "By:  jane  o'neil.")). reflexivity.
Defined.

(** ** The date preference is a strict preference *)

Lemma date_gtb_asym (a b : date) : date_gtb a b = true -> date_gtb b a = false.
Proof.
  unfold date_gtb.
  rewrite !orb_true_iff, !andb_true_iff, !orb_true_iff, !andb_true_iff,
          !Z.ltb_lt, !Z.eqb_eq.
  intros H. apply not_true_is_false.
  rewrite !orb_true_iff, !andb_true_iff, !orb_true_iff, !andb_true_iff,
          !Z.ltb_lt, !Z.eqb_eq.
  lia.
Qed.

(** X2: [_prefer_newer] never prefers a date to itself, and never prefers
    each of two dates to the other. *)
Theorem prefer_newer_strict :
  (forall d : str, _prefer_newer d d = false) /\
  (forall existing candidate : str,
     _prefer_newer existing candidate = true ->
     _prefer_newer candidate existing = false).
Proof.
  assert (A : forall existing candidate : str,
             _prefer_newer existing candidate = true ->
             _prefer_newer candidate existing = false).
  { intros e c. unfold _prefer_newer.
    destruct (is_unknown c) eqn:Ec; [discriminate|].
    destruct (is_unknown e) eqn:Ee; [reflexivity|].
    destruct (parse_iso c) as [cd|], (parse_iso e) as [ed|];
      try (intros H; apply Nat.ltb_lt in H; apply Nat.ltb_ge; lia).
    apply date_gtb_asym. }
  split; [|exact A].
  intros d. destruct (_prefer_newer d d) eqn:E; [|reflexivity].
  pose proof (A d d E). congruence.
Qed.

Lemma prefer_newer_strict_witness :
  _prefer_newer (lit "2024-01-01") (lit "2024-02-01") = true /\
  _prefer_newer (lit "2024-02-01") (lit "2024-01-01") = false.
Proof.
  split; [reflexivity|].
  destruct prefer_newer_strict as [_ A].
  apply (A (lit "2024-01-01") (lit "2024-02-01")). reflexivity.
Defined.

(** ** Beat canonicalisation *)

Open Scope N_scope.

Lemma starts_with_app (k t b : str) :
  starts_with k t = true -> starts_with k (t ++ b) = true.
Proof.
  revert t. induction k as [|x k IH]; intros [|y t]; simpl; auto;
    [discriminate|].
  intros H. apply andb_prop in H. destruct H as [H1 H2].
  rewrite H1. simpl. apply IH; exact H2.
Qed.

Lemma contains_app_r (k t b : str) :
  contains k t = true -> contains k (t ++ b) = true.
Proof.
  induction t as [|y t IH]; intros H.
  - simpl in H. rewrite orb_false_r in H.
    destruct k; [|discriminate]. destruct b; reflexivity.
  - cbn [contains] in H. apply orb_prop in H. cbn [app contains].
    destruct H as [H | H].
    + apply (starts_with_app k (y :: t) b) in H. cbn [app] in H.
      rewrite H. reflexivity.
    + rewrite (IH H). apply orb_true_r.
Qed.

Lemma contains_app_l (k a t : str) :
  contains k t = true -> contains k (a ++ t) = true.
Proof.
  intros H. induction a as [|y a IH]; [exact H|].
  cbn [app contains]. rewrite IH. apply orb_true_r.
Qed.

Lemma contains_infix (k a t b : str) :
  contains k t = true -> contains k (a ++ t ++ b) = true.
Proof. intros H. apply contains_app_l, contains_app_r, H. Qed.

Lemma no_space_rev (s : str) : no_space (rev s) = no_space s.
Proof.
  unfold no_space. destruct (forallb _ s) eqn:E.
  - rewrite forallb_forall in *. intros x Hx. apply E, in_rev, Hx.
  - apply not_true_is_false. intros H. rewrite forallb_forall in H.
    assert (forallb (fun c => negb (is_space c)) s = true); [|congruence].
    apply forallb_forall. intros x Hx. apply H. apply in_rev in Hx. exact Hx.
Qed.

Lemma rev_nil_inv (A : Type) (l : list A) : rev l = [] -> l = [].
Proof.
  destruct l as [|x l]; [reflexivity|]. cbn [rev]. intros H.
  apply app_eq_nil in H. destruct H; discriminate.
Qed.

(** The first word that [split] returns is a block of the text, is not
    empty and holds no whitespace. *)
Lemma split_from_first (s : str) : forall cur tok rest,
  no_space cur = true ->
  split_from cur s = tok :: rest ->
  (exists a b, rev cur ++ s = a ++ tok ++ b) /\ tok <> [] /\
  no_space tok = true.
Proof.
  induction s as [|c r IH]; intros cur tok rest Hc.
  - cbn [split_from]. destruct cur as [|x cur']; [discriminate|].
    intros E. injection E as <- _. split; [|split].
    + exists [], []. rewrite !app_nil_r. reflexivity.
    + intros E. change (rev (x :: cur') = []) in E.
      apply rev_nil_inv in E. discriminate.
    + change (no_space (rev (x :: cur')) = true).
      rewrite no_space_rev. exact Hc.
  - cbn [split_from]. destruct (is_space c) eqn:Es.
    + destruct cur as [|x cur'].
      * intros E. destruct (IH [] tok rest eq_refl E) as ((a & b & Hab) & H2).
        split; [|exact H2]. exists (c :: a), b. cbn [rev app] in *.
        rewrite Hab. reflexivity.
      * intros E. injection E as <- _. split; [|split].
        -- exists [], (c :: r). reflexivity.
        -- intros E. change (rev (x :: cur') = []) in E.
           apply rev_nil_inv in E. discriminate.
        -- change (no_space (rev (x :: cur')) = true).
           rewrite no_space_rev. exact Hc.
    + intros E.
      assert (Hc' : no_space (c :: cur) = true).
      { unfold no_space in *. cbn [forallb]. rewrite Es, Hc. reflexivity. }
      destruct (IH (c :: cur) tok rest Hc' E) as ((a & b & Hab) & H2).
      split; [|exact H2]. exists a, b. rewrite <- Hab.
      cbn [rev]. rewrite <- app_assoc. reflexivity.
Qed.

(** A word splits into itself. *)
Lemma split_from_word (s : str) : forall cur,
  no_space s = true -> rev cur ++ s <> [] ->
  split_from cur s = [rev cur ++ s].
Proof.
  induction s as [|c r IH]; intros cur Hs Hne.
  - cbn [split_from]. rewrite app_nil_r in *.
    destruct cur; [exfalso; apply Hne; reflexivity | reflexivity].
  - unfold no_space in Hs. cbn [forallb] in Hs.
    apply andb_prop in Hs. destruct Hs as [Hc Hr].
    apply negb_true_iff in Hc. cbn [split_from]. rewrite Hc.
    rewrite (IH (c :: cur) Hr).
    + cbn [rev]. rewrite <- app_assoc. reflexivity.
    + cbn [rev]. rewrite <- app_assoc. exact Hne.
Qed.

Lemma sub_runs_fixed (cls : char -> bool) (s : str) : forall b,
  forallb (fun c => negb (cls c)) s = true -> sub_runs cls b s = s.
Proof.
  induction s as [|c r IH]; intros b H; [reflexivity|].
  cbn [forallb] in H. apply andb_prop in H. destruct H as [H1 H2].
  apply negb_true_iff in H1. cbn [sub_runs]. rewrite H1, IH; auto.
Qed.

Lemma word_char_facts (c : char) : is_word_char c = true ->
  is_space c = false /\ is_beat_sep c = false /\ is_beat_char c = true /\
  lower_c c = c /\ lower_c (upper_c c) = c /\ is_space (upper_c c) = false.
Proof.
  unfold is_word_char, is_lower, is_digit. intros H.
  assert (R : ((97 <= c <= 122) \/ (48 <= c <= 57))%N).
  { apply orb_prop in H. rewrite !in_range_spec in H. exact H. }
  assert (Hs : is_space c = false).
  { unfold is_space, in_range.
    repeat (apply orb_false_intro);
      first [ apply andb_false_iff;
              destruct (N.leb_spec 9 c), (N.leb_spec 28 c),
                       (N.leb_spec 8192 c);
              first [ left; reflexivity | right; apply N.leb_gt; lia
                    | left; apply N.leb_gt; lia ]
            | apply N.eqb_neq; lia ]. }
  assert (Hl : lower_c c = c).
  { unfold lower_c, is_upper. destruct (in_range 65 90 c) eqn:E;
      [|reflexivity]. apply in_range_spec in E. lia. }
  repeat split.
  - exact Hs.
  - unfold is_beat_sep. rewrite Hs. cbn [orb].
    repeat (apply orb_false_intro); apply N.eqb_neq; lia.
  - unfold is_beat_char, is_lower, is_digit.
    apply orb_prop in H. destruct H as [-> | ->]; [reflexivity|].
    rewrite orb_true_r. reflexivity.
  - exact Hl.
  - unfold upper_c, is_lower. destruct (in_range 97 122 c) eqn:E;
      [|exact Hl]. apply in_range_spec in E.
    unfold lower_c, is_upper.
    assert (E2 : in_range 65 90 (c - 32) = true)
      by (apply in_range_spec; lia).
    rewrite E2. lia.
  - unfold upper_c, is_lower. destruct (in_range 97 122 c) eqn:E;
      [|exact Hs]. apply in_range_spec in E.
    apply cased_not_space. apply is_cased_range. lia.
Qed.

Lemma word_chars_of_beat_chars (s : str) :
  forallb is_beat_char s = true -> no_space s = true ->
  forallb is_word_char s = true.
Proof.
  unfold no_space. induction s as [|c r IH]; [reflexivity|].
  cbn [forallb]. intros H1 H2.
  apply andb_prop in H1. destruct H1 as [H1 H1'].
  apply andb_prop in H2. destruct H2 as [H2 H2'].
  rewrite (IH H1' H2'), andb_true_r.
  unfold is_beat_char in H1. unfold is_word_char.
  apply orb_prop in H1. destruct H1 as [H1 | H1]; [exact H1|].
  apply N.eqb_eq in H1. subst c. discriminate.
Qed.

Lemma word_lower_fixed (s : str) :
  forallb is_word_char s = true -> lower s = s.
Proof.
  induction s as [|c r IH]; [reflexivity|].
  cbn [forallb]. intros H. apply andb_prop in H. destruct H as [H1 H2].
  cbn [lower List.map]. destruct (word_char_facts c H1) as (_ & _ & _ & -> & _).
  f_equal. apply IH; exact H2.
Qed.

Lemma word_forall (P : char -> bool) (s : str) :
  (forall c, is_word_char c = true -> P c = true) ->
  forallb is_word_char s = true -> forallb P s = true.
Proof.
  intros HP H. rewrite forallb_forall in *. intros c Hc. apply HP, H, Hc.
Qed.

Lemma first_mapped_value m s v :
  first_mapped m s = Some v -> In v (List.map snd m).
Proof.
  induction m as [|[k v'] m IH]; [discriminate|].
  cbn [first_mapped]. destruct (contains k s).
  - intros E; injection E as <-. left; reflexivity.
  - intros E. right. apply IH; exact E.
Qed.

Lemma first_mapped_infix m a t b :
  first_mapped m (a ++ t ++ b) = None -> first_mapped m t = None.
Proof.
  induction m as [|[k v] m IH]; [reflexivity|].
  cbn [first_mapped]. destruct (contains k t) eqn:E.
  - rewrite (contains_infix k a t b E). discriminate.
  - destruct (contains k (a ++ t ++ b)); [discriminate | exact IH].
Qed.

Lemma mapping_values_fixed :
  forallb (fun v => str_eqb (normalize_beat v) v && negb (is_empty v))
          (List.map snd mapping) = true.
Proof. vm_compute. reflexivity. Qed.

(** The three ways [normalize_beat] ends. *)
Lemma normalize_beat_cases (raw : str) :
  normalize_beat raw = lit "Unknown" \/
  In (normalize_beat raw) (List.map snd mapping) \/
  exists tok, normalize_beat raw = capitalize tok /\ tok <> [] /\
              forallb is_word_char tok = true /\
              first_mapped mapping tok = None.
Proof.
  unfold normalize_beat. destruct raw as [|c0 r0]; [left; reflexivity|].
  set (s := filter is_beat_char
              (sub_runs is_beat_sep false (lower (strip (c0 :: r0))))).
  destruct (first_mapped mapping s) as [v|] eqn:Em.
  { right; left. eapply first_mapped_value; exact Em. }
  destruct (split_ws s) as [|tok rest] eqn:Es; [left; reflexivity|].
  destruct (split_from_first s [] tok rest eq_refl Es)
    as ((a & b & Hab) & Hne & Hns).
  cbn [rev app] in Hab.
  destruct tok as [|t0 tr]; [congruence|].
  right; right. exists (t0 :: tr). repeat split; auto.
  - apply word_chars_of_beat_chars; [|exact Hns].
    assert (Hs : forallb is_beat_char s = true) by apply forallb_filter.
    rewrite Hab, !forallb_app in Hs.
    apply andb_prop in Hs. destruct Hs as [_ Hs].
    apply andb_prop in Hs. tauto.
  - rewrite Hab in Em. eapply first_mapped_infix; exact Em.
Qed.

(** X3: [normalize_beat] never returns the empty string, so the beat of
    an observation is always counted. *)
Theorem normalize_beat_nonempty (raw : str) : normalize_beat raw <> [].
Proof.
  destruct (normalize_beat_cases raw) as [H | [H | (tok & H & Hne & _)]].
  - rewrite H. discriminate.
  - pose proof mapping_values_fixed as F. rewrite forallb_forall in F.
    apply F in H. apply andb_prop in H. destruct H as [_ H].
    destruct (normalize_beat raw); [discriminate | discriminate].
  - rewrite H. destruct tok; [congruence | discriminate].
Qed.

Lemma normalize_beat_word (tok : str) :
  tok <> [] -> forallb is_word_char tok = true ->
  first_mapped mapping tok = None ->
  normalize_beat (capitalize tok) = capitalize tok.
Proof.
  intros Hne Hw Hm. destruct tok as [|c r]; [congruence|].
  cbn [forallb] in Hw. pose proof Hw as Hw'.
  apply andb_prop in Hw. destruct Hw as [Hc Hr].
  destruct (word_char_facts c Hc) as (_ & _ & _ & _ & Hlu & Hsu).
  assert (Hlr : lower r = r) by (apply word_lower_fixed; exact Hr).
  assert (Hcap : capitalize (c :: r) = upper_c c :: r).
  { cbn [capitalize]. rewrite Hlr. reflexivity. }
  assert (Hns : no_space (upper_c c :: r) = true).
  { unfold no_space. cbn [forallb]. rewrite Hsu. cbn [negb andb].
    apply word_forall; [|exact Hr].
    intros x Hx. destruct (word_char_facts x Hx) as (-> & _). reflexivity. }
  assert (Hlow : lower (upper_c c :: r) = c :: r).
  { cbn [lower List.map]. rewrite Hlu. f_equal. exact Hlr. }
  rewrite Hcap. unfold normalize_beat.
  rewrite (no_space_strip _ Hns), Hlow.
  rewrite (sub_runs_fixed is_beat_sep (c :: r) false).
  2:{ apply word_forall; [|exact Hw'].
      intros x Hx. destruct (word_char_facts x Hx) as (_ & -> & _).
      reflexivity. }
  rewrite (forallb_filter_id is_beat_char (c :: r)).
  2:{ apply word_forall; [|exact Hw'].
      intros x Hx. destruct (word_char_facts x Hx) as (_ & _ & -> & _).
      reflexivity. }
  rewrite Hm. unfold split_ws.
  rewrite (split_from_word (c :: r) []).
  - cbn [rev app]. rewrite <- Hcap. reflexivity.
  - unfold no_space. apply word_forall; [|exact Hw'].
    intros x Hx. destruct (word_char_facts x Hx) as (-> & _). reflexivity.
  - discriminate.
Qed.

(** X4: [normalize_beat] is idempotent, so applying it in
    [extract_profiles] to a section that [extract_section] has already
    canonicalised changes nothing. *)
Theorem normalize_beat_idempotent (raw : str) :
  normalize_beat (normalize_beat raw) = normalize_beat raw.
Proof.
  destruct (normalize_beat_cases raw)
    as [H | [H | (tok & H & Hne & Hw & Hm)]].
  - rewrite H. vm_compute. reflexivity.
  - pose proof mapping_values_fixed as F. rewrite forallb_forall in F.
    apply F in H. apply andb_prop in H. destruct H as [H _].
    apply str_eqb_eq in H. exact H.
  - rewrite H. apply normalize_beat_word; assumption.
Qed.

Open Scope Z_scope.

(** ** The cleaning loop of [extract_authors] *)

Lemma strip_strip (s : str) : strip (strip s) = strip s.
Proof.
  destruct (strip_clean s) as [H1 H2]. apply strip_fixed; assumption.
Qed.

Lemma clean_author_shape (a s : str) :
  clean_author a = Some s ->
  (2 <= List.length s)%nat /\ strip s = s /\ ~ In (lower s) placeholders.
Proof.
  unfold clean_author.
  destruct (List.length (strip (collapse_ws a)) <? 2)%nat eqn:El;
    [discriminate|].
  destruct (str_in (lower (strip (collapse_ws a))) placeholders) eqn:Ep;
    [discriminate|].
  intros E; injection E as <-. apply Nat.ltb_ge in El.
  split; [exact El|]. split; [apply strip_strip|].
  intros H. apply str_in_In in H. congruence.
Qed.

(** X5: [extract_authors] never returns an empty list, and every name it
    returns is the placeholder Unknown or has two characters or more, no
    whitespace at either end, and is none of contributors, staff,
    editorial, team, s in lower case. *)
Theorem extract_authors_shape (names : list str) :
  extract_authors names <> [] /\
  Forall (fun a => a = lit "Unknown" \/
                   ((2 <= List.length a)%nat /\ strip a = a /\
                    ~ In (lower a) placeholders))
         (extract_authors names).
Proof.
  assert (H : Forall (fun a => a = lit "Unknown" \/
                       ((2 <= List.length a)%nat /\ strip a = a /\
                        ~ In (lower a) placeholders))
                     (cleaned_authors names)).
  { induction names as [|a r IH]; [constructor|].
    cbn [cleaned_authors]. destruct (clean_author a) as [s|] eqn:E;
      [|exact IH].
    constructor; [right; apply (clean_author_shape a s E) | exact IH]. }
  unfold extract_authors. destruct (cleaned_authors names) as [|x l].
  - split; [discriminate|]. constructor; [left; reflexivity | constructor].
  - split; [discriminate | exact H].
Qed.

(** ** What [_finalize_profiles] returns *)

Lemma finalize_entry_is_kept (v : entry) :
  (is_kept v = true ->
   exists p, snd (finalize_entry v) = Some p /\ p_name p = name v) /\
  (is_kept v = false -> finalize_entry v = (v, None)).
Proof.
  unfold is_kept, finalize_entry.
  destruct (is_empty (lower (strip (name v))) ||
            str_in (lower (strip (name v))) blacklist); cbn [negb].
  - split; [discriminate | reflexivity].
  - split; [|discriminate]. intros _. eexists. split; [reflexivity|].
    cbn [p_name]. destruct (beat_counts v) as [[|x r]|]; reflexivity.
Qed.

Lemma finalize_loop_names (pm : dict entry) :
  List.map p_name (snd (finalize_loop pm)) =
  List.map (fun kv => name (snd kv)) (filter (fun kv => is_kept (snd kv)) pm).
Proof.
  induction pm as [|[k v] rest IH]; [reflexivity|].
  cbn [finalize_loop filter snd].
  destruct (finalize_entry_is_kept v) as [Hk Hs].
  destruct (finalize_loop rest) as [rest' ps]. cbn [snd] in IH.
  destruct (is_kept v).
  - destruct (Hk eq_refl) as (p & Hp & Hn).
    destruct (finalize_entry v) as [v' out]. cbn [snd] in *. subst out.
    cbn [List.map snd]. rewrite Hn, IH. reflexivity.
  - rewrite (Hs eq_refl). cbn [snd]. exact IH.
Qed.

(** X6: when the names of the entries are ASCII, the names of the
    returned profiles are, up to order, the names of all the entries that
    pass the blacklist test: the final slice cuts nothing, however many
    entries there are. *)
Theorem finalize_profiles_keeps_all (pm : dict entry) :
  Forall (fun kv => forallb is_ascii (name (snd kv)) = true) pm ->
  Permutation
    (List.map p_name (snd (_finalize_profiles pm)))
    (List.map (fun kv => name (snd kv))
       (filter (fun kv => is_kept (snd kv)) pm)).
Proof.
  intros _. rewrite finalize_profiles_eq, <- finalize_loop_names.
  apply Permutation_map, sort_profiles_perm.
Qed.

Lemma finalize_profiles_keeps_all_witness :
  Forall (fun kv => forallb is_ascii (name (snd kv)) = true)
         bob_alice_carol /\
  Permutation
    (List.map p_name (snd (_finalize_profiles bob_alice_carol)))
    [lit "Carol"; lit "Alice"; lit "Bob"].
Proof.
  assert (H : Forall (fun kv => forallb is_ascii (name (snd kv)) = true)
                     bob_alice_carol)
    by (repeat constructor).
  split; [exact H|].
  exact (finalize_profiles_keeps_all bob_alice_carol H).
Defined.

Lemma finalize_entry_again (v : entry) :
  finalize_entry (fst (finalize_entry v)) = finalize_entry v.
Proof.
  unfold finalize_entry at 2 3.
  destruct (is_empty (lower (strip (name v))) ||
            str_in (lower (strip (name v))) blacklist) eqn:E.
  - cbn [fst]. unfold finalize_entry. rewrite E. reflexivity.
  - cbn [fst]. unfold finalize_entry.
    assert (N : forall v1, name v1 = name v ->
              name (set_beat_counts None v1) = name v) by (intros; assumption).
    destruct (beat_counts v) as [[|x r]|]; cbn [name set_beat_counts set_beat];
      rewrite E; reflexivity.
Qed.

Lemma finalize_loop_again (pm : dict entry) :
  finalize_loop (fst (finalize_loop pm)) = finalize_loop pm.
Proof.
  induction pm as [|[k v] rest IH]; [reflexivity|].
  cbn [finalize_loop].
  pose proof (finalize_entry_again v) as Hv.
  destruct (finalize_entry v) as [v' out].
  destruct (finalize_loop rest) as [rest' ps]. cbn [fst] in *.
  cbn [finalize_loop]. rewrite Hv, IH. reflexivity.
Qed.

(** X7: finalizing a profile map that has already been finalized changes
    neither the map nor the returned list. *)
Theorem finalize_profiles_again (pm : dict entry) :
  _finalize_profiles (fst (_finalize_profiles pm)) = _finalize_profiles pm.
Proof.
  unfold _finalize_profiles.
  pose proof (finalize_loop_again pm) as H.
  destruct (finalize_loop pm) as [pm' ps]. cbn [fst] in *.
  rewrite H. reflexivity.
Qed.

(** [max] returns the first of the items of greatest count. *)
Lemma max_by_count_first (items : list (str * Z)) : forall best,
  exists pre post,
    best :: items = pre ++ max_by_count best items :: post /\
    Forall (fun y => snd y < snd (max_by_count best items)) pre /\
    Forall (fun y => snd y <= snd (max_by_count best items)) post.
Proof.
  induction items as [|x r IH]; intros best.
  - exists [], []. cbn. repeat split; constructor.
  - cbn [max_by_count]. destruct (snd best <? snd x) eqn:E.
    + apply Z.ltb_lt in E.
      destruct (IH x) as (pre & post & Heq & Hpre & Hpost).
      exists (best :: pre), post. split; [|split].
      * cbn [app]. rewrite <- Heq. reflexivity.
      * constructor; [|exact Hpre].
        destruct pre as [|y pre'].
        -- cbn [app] in Heq. injection Heq as Hx _. rewrite <- Hx. exact E.
        -- cbn [app] in Heq. injection Heq as Hx _. subst y.
           inversion Hpre; subst. lia.
      * exact Hpost.
    + apply Z.ltb_ge in E.
      destruct (IH best) as (pre & post & Heq & Hpre & Hpost).
      remember (max_by_count best r) as m eqn:Hm. clear Hm.
      destruct pre as [|y pre'].
      * cbn [app] in Heq. injection Heq as Hb Hr. subst m r.
        exists [], (x :: post). split; [|split].
        -- reflexivity.
        -- constructor.
        -- constructor; [exact E | exact Hpost].
      * cbn [app] in Heq. injection Heq as Hb Hr. subst y r.
        exists (best :: x :: pre'), post. split; [|split].
        -- reflexivity.
        -- inversion Hpre; subst.
           constructor; [assumption|]. constructor; [lia | assumption].
        -- exact Hpost.
Qed.

(** X8: when an entry with counted beats is finalized, the beat shown is
    the first beat of greatest count: every beat counted before it has a
    smaller count and every beat counted after it has no greater one. *)
Theorem finalize_entry_shows_top_beat (v : entry) (p : profile)
    (x : str * Z) (r : list (str * Z)) :
  snd (finalize_entry v) = Some p ->
  beat_counts v = Some (x :: r) ->
  exists pre b n post,
    x :: r = pre ++ (b, n) :: post /\
    Forall (fun y => snd y < n) pre /\
    Forall (fun y => snd y <= n) post /\
    p_beat p = or_unknown b.
Proof.
  unfold finalize_entry.
  destruct (is_empty (lower (strip (name v))) ||
            str_in (lower (strip (name v))) blacklist); [discriminate|].
  intros Hp Hbc. rewrite Hbc in Hp. cbn [snd] in Hp. injection Hp as <-.
  cbn [p_beat beat set_beat_counts set_beat].
  destruct (max_by_count_first r x) as (pre & post & Heq & Hpre & Hpost).
  destruct (max_by_count x r) as [b n] eqn:Em. cbn [snd fst] in *.
  exists pre, b, n, post. auto.
Qed.

Lemma finalize_entry_shows_top_beat_witness :
  exists pre b n post,
    [(lit "Sports", 2); (lit "Politics", 5); (lit "World", 5)] =
      pre ++ (b, n) :: post /\
    Forall (fun y => snd y < n) pre /\
    Forall (fun y => snd y <= n) post /\
    lit "Politics" = or_unknown b.
Proof.
  apply (finalize_entry_shows_top_beat entry_three_beats
           {| p_name := lit "Jane Doe"; p_beat := lit "Politics";
              p_latest_article := lit "One"; p_article_url := lit "/1";
              p_publication_date := lit "2024-01-01";
              p_articles_count := 12 |}
           (lit "Sports", 2) [(lit "Politics", 5); (lit "World", 5)]);
    reflexivity.
Defined.

(** ** One profile for each author *)

Lemma dict_get_In (V : Type) (k : str) (v : V) (d : dict V) :
  dict_get k d = Some v -> In (k, v) d.
Proof.
  induction d as [|[k' v'] d' IH]; cbn [dict_get]; [discriminate|].
  destruct (str_eqb k k') eqn:E.
  - apply str_eqb_eq in E. subst k'. intros H; injection H as <-.
    left; reflexivity.
  - intros H. right. apply IH; exact H.
Qed.

Lemma dict_set_keys_In (V : Type) (k x : str) (v : V) (d : dict V) :
  In x (List.map fst (dict_set k v d)) -> x = k \/ In x (List.map fst d).
Proof.
  induction d as [|[k' v'] d' IH]; cbn [dict_set List.map fst In].
  - intros [H | []]; auto.
  - destruct (str_eqb k k'); cbn [List.map fst In]; [tauto|].
    intros [H | H]; [tauto|]. destruct (IH H); tauto.
Qed.

Lemma dict_set_keys_NoDup (V : Type) (k : str) (v : V) (d : dict V) :
  NoDup (List.map fst d) -> NoDup (List.map fst (dict_set k v d)).
Proof.
  induction d as [|[k' v'] d' IH]; cbn [dict_set List.map fst]; intros H.
  - constructor; [intros [] | constructor].
  - destruct (str_eqb k k') eqn:E; cbn [List.map fst]; [exact H|].
    inversion H as [|? ? Hn Hd]; subst. constructor; [|apply IH; exact Hd].
    intros Hin. apply dict_set_keys_In in Hin. destruct Hin as [-> | Hin].
    + rewrite str_eqb_refl in E. discriminate.
    + exact (Hn Hin).
Qed.

Lemma dict_set_Forall (V : Type) (P : str * V -> Prop) (k : str) (v : V)
    (d : dict V) :
  Forall P d -> P (k, v) -> Forall P (dict_set k v d).
Proof.
  intros Hd Hp. induction Hd as [|[k' v'] d' Hx Hd IH]; cbn [dict_set].
  - constructor; [exact Hp | constructor].
  - destruct (str_eqb k k') eqn:E.
    + apply str_eqb_eq in E. subst k'. constructor; assumption.
    + constructor; assumption.
Qed.

Lemma keyed_set (k : str) (v : entry) (pm : dict entry) :
  keyed pm -> k = lower (name v) -> keyed (dict_set k v pm).
Proof.
  intros [H1 H2] Hk. split.
  - apply dict_set_keys_NoDup; exact H1.
  - apply dict_set_Forall; [exact H2 | exact Hk].
Qed.

Lemma keyed_get (k : str) (e : entry) (pm : dict entry) :
  keyed pm -> dict_get k pm = Some e -> k = lower (name e).
Proof.
  intros [_ H] Hg. apply dict_get_In in Hg.
  rewrite Forall_forall in H. exact (H (k, e) Hg).
Qed.

Lemma merge_author_keyed url title pub_date section author pm :
  keyed pm -> keyed (fst (merge_author url title pub_date section author pm)).
Proof.
  intros H. unfold merge_author.
  destruct (is_empty (normalize_name author)); [exact H|].
  destruct (dict_get (lower (normalize_name author)) pm) as [e|] eqn:Eg.
  - pose proof (keyed_get _ _ _ H Eg) as He.
    destruct (is_empty section).
    + cbn [fst]. apply keyed_set; [exact H|].
      destruct (_prefer_newer _ _); exact He.
    + cbn [beat_counts set_articles_count].
      destruct (beat_counts e) as [bc|]; cbn [fst];
        (apply keyed_set; [exact H|]);
        [destruct (_prefer_newer _ _)|]; exact He.
  - cbn [fst]. apply keyed_set; [exact H | reflexivity].
Qed.

Lemma merge_authors_keyed url title pub_date section l : forall pm,
  keyed pm -> keyed (fst (merge_authors url title pub_date section l pm)).
Proof.
  induction l as [|a r IH]; intros pm H; [exact H|].
  cbn [merge_authors].
  pose proof (merge_author_keyed url title pub_date section a pm H) as H1.
  destruct (merge_author url title pub_date section a pm) as [pm' [|]];
    cbn [fst] in *; [apply IH; exact H1 | exact H1].
Qed.

Lemma finalize_entry_name (v : entry) : name (fst (finalize_entry v)) = name v.
Proof.
  unfold finalize_entry. destruct (_ || _); [reflexivity|].
  cbn [fst]. destruct (beat_counts v) as [[|x r]|]; reflexivity.
Qed.

Lemma finalize_loop_keyed (pm : dict entry) :
  keyed pm -> keyed (fst (finalize_loop pm)).
Proof.
  unfold keyed. induction pm as [|[k v] rest IH]; [auto|].
  cbn [finalize_loop List.map fst]. intros [H1 H2].
  inversion H1 as [|? ? Hn Hd]; subst. inversion H2 as [|? ? Hk Hf]; subst.
  pose proof (finalize_entry_name v) as Hv.
  destruct (finalize_entry v) as [v' out].
  destruct (IH (conj Hd Hf)) as [I1 I2].
  assert (Hkeys : List.map fst (fst (finalize_loop rest)) = List.map fst rest).
  { clear. induction rest as [|[k0 v0] r IHr]; [reflexivity|].
    cbn [finalize_loop]. destruct (finalize_entry v0).
    destruct (finalize_loop r). cbn [fst List.map] in *. rewrite IHr.
    reflexivity. }
  destruct (finalize_loop rest) as [rest' ps]. cbn [fst snd List.map] in *.
  split.
  - constructor; [rewrite Hkeys; exact Hn | exact I1].
  - constructor; [cbn [fst snd]; rewrite Hv; exact Hk | exact I2].
Qed.

Lemma finalize_profiles_keyed (pm : dict entry) :
  keyed pm -> keyed (fst (_finalize_profiles pm)).
Proof.
  intros H. pose proof (finalize_loop_keyed pm H) as H1.
  unfold _finalize_profiles. destruct (finalize_loop pm). exact H1.
Qed.

Lemma finalize_loop_distinct (pm : dict entry) :
  keyed pm ->
  NoDup (List.map (fun p => lower (p_name p)) (snd (finalize_loop pm))) /\
  Forall (fun p => In (lower (p_name p)) (List.map fst pm))
         (snd (finalize_loop pm)).
Proof.
  unfold keyed. induction pm as [|[k v] rest IH].
  - intros _. split; constructor.
  - cbn [finalize_loop List.map fst]. intros [H1 H2].
    inversion H1 as [|? ? Hn Hd]; subst. inversion H2 as [|? ? Hk Hf]; subst.
    destruct (IH (conj Hd Hf)) as [I1 I2]. cbn [fst snd] in Hk.
    pose proof (finalize_entry_out v) as Ho.
    destruct (finalize_entry v) as [v' out].
    destruct (finalize_loop rest) as [rest' ps]. cbn [snd] in *.
    assert (I2' : Forall (fun p => In (lower (p_name p)) (k :: List.map fst rest)) ps).
    { rewrite Forall_forall in *. intros p Hp. right. apply I2; exact Hp. }
    destruct out as [p|]; [|split; assumption].
    destruct (Ho p eq_refl) as (Hname & _). split.
    + cbn [List.map]. constructor; [|exact I1].
      rewrite Hname, <- Hk. intros Hin. apply Hn.
      apply in_map_iff in Hin. destruct Hin as (q & Hq & Hin).
      rewrite Forall_forall in I2. rewrite <- Hq. apply I2; exact Hin.
    + constructor; [left; rewrite Hname; exact Hk | exact I2'].
Qed.

Section PipelineMore.
Variable OUTLET : option str.
Variable web : site.
Variable base_url : str.

Lemma visit_keyed url st :
  keyed (profiles_map st) ->
  keyed (profiles_map (visit OUTLET web base_url url st)).
Proof.
  intros H. unfold visit.
  destruct (negb (allowed_by_robots web url)); [exact H|].
  destruct (get web url) as [|code soup]; [exact H|].
  destruct (negb (code =? 200)); [exact H|].
  pose proof (merge_authors_keyed url (page_title soup) (pub_date soup)
                (normalize_beat (section soup))
                (extract_authors (authors soup)) (profiles_map st) H) as H1.
  destruct (merge_authors _ _ _ _ _ _) as [pm [|]]; cbn [fst] in H1.
  - destruct (_ =? 0); [|exact H1].
    pose proof (finalize_profiles_keyed pm H1) as H2.
    destruct (_finalize_profiles pm). exact H2.
  - exact H1.
Qed.

Lemma visit_all_keyed min_profiles urls : forall st,
  keyed (profiles_map st) ->
  keyed (profiles_map (visit_all OUTLET web base_url min_profiles urls st)).
Proof.
  induction urls as [|u r IH]; intros st H; [exact H|].
  cbn [visit_all]. destruct (_ >=? _); [exact H|]. apply IH, visit_keyed, H.
Qed.

(** X9: no two profiles that [extract_profiles] returns have the same
    name in lower case: each author has one profile. *)
Theorem extract_profiles_one_per_author (urls : list str) (min_profiles : Z) :
  NoDup (List.map (fun p => lower (p_name p))
           (extract_profiles OUTLET web base_url urls min_profiles)).
Proof.
  unfold extract_profiles. rewrite finalize_profiles_eq.
  eapply Permutation_NoDup.
  - apply Permutation_map. apply Permutation_sym, sort_profiles_perm.
  - apply finalize_loop_distinct. apply visit_all_keyed.
    split; constructor.
Qed.

Lemma polite_more urls u e : polite web urls e -> polite web (u :: urls) e.
Proof. destruct e; cbn; intuition. Qed.

Lemma visit_polite urls url st :
  In url urls ->
  Forall (polite web urls) (trace st) ->
  Forall (polite web urls) (trace (visit OUTLET web base_url url st)).
Proof.
  intros Hu H. unfold visit.
  assert (H1 : Forall (polite web urls) (trace st ++ [RobotsCheck url])).
  { apply Forall_app. split; [exact H|]. constructor; [exact Hu | constructor]. }
  destruct (allowed_by_robots web url) eqn:Er; cbn [negb]; [|exact H1].
  assert (H2 : Forall (polite web urls)
                 ((trace st ++ [RobotsCheck url]) ++ [Get url])).
  { apply Forall_app. split; [exact H1|].
    constructor; [split; assumption | constructor]. }
  destruct (get web url) as [|code soup]; [exact H2|].
  destruct (negb (code =? 200)); [exact H2|].
  destruct (merge_authors _ _ _ _ _ _) as [pm [|]]; [|exact H2].
  destruct (_ =? 0); [|exact H2].
  destruct (_finalize_profiles pm). cbn [trace].
  apply Forall_app. split; [exact H2|]. constructor; [exact I | constructor].
Qed.

Lemma visit_all_polite min_profiles urls : forall st all,
  (forall u, In u urls -> In u all) ->
  Forall (polite web all) (trace st) ->
  Forall (polite web all)
    (trace (visit_all OUTLET web base_url min_profiles urls st)).
Proof.
  induction urls as [|u r IH]; intros st all Hsub H; [exact H|].
  cbn [visit_all]. destruct (_ >=? _); [exact H|].
  apply IH.
  - intros x Hx. apply Hsub. right; exact Hx.
  - apply visit_polite; [apply Hsub; left; reflexivity | exact H].
Qed.

(** X10: [extract_profiles] requests a page only after the robots check
    has allowed it, and only for a URL of its list. *)
Theorem extract_profiles_obeys_robots (urls : list str) (min_profiles : Z)
    (u : str) :
  In (Get u)
     (trace (visit_all OUTLET web base_url min_profiles urls start)) ->
  allowed_by_robots web u = true /\ In u urls.
Proof.
  intros H.
  pose proof (visit_all_polite min_profiles urls start urls
                (fun x Hx => Hx) (Forall_nil _)) as P.
  rewrite Forall_forall in P. exact (P (Get u) H).
Qed.

Lemma count_writes_app (a b : list event) :
  count_writes (a ++ b) = count_writes a + count_writes b.
Proof.
  induction a as [|e a IH]; [reflexivity|].
  cbn [app count_writes]. destruct e; rewrite IH; lia.
Qed.

Lemma visit_cadence url st :
  0 <= processed st ->
  count_writes (trace st) = processed st / WRITE_PROGRESS_EVERY ->
  0 <= processed (visit OUTLET web base_url url st) <= processed st + 1 /\
  count_writes (trace (visit OUTLET web base_url url st)) =
    processed (visit OUTLET web base_url url st) / WRITE_PROGRESS_EVERY.
Proof.
  intros H0 H. unfold visit, WRITE_PROGRESS_EVERY in *.
  destruct (negb (allowed_by_robots web url)); cbn [processed trace].
  { rewrite count_writes_app. cbn [count_writes]. lia. }
  destruct (get web url) as [|code soup]; cbn [processed trace].
  { rewrite !count_writes_app. cbn [count_writes]. lia. }
  destruct (negb (code =? 200)); cbn [processed trace].
  { rewrite !count_writes_app. cbn [count_writes]. lia. }
  destruct (merge_authors _ _ _ _ _ _) as [pm [|]]; cbn [processed trace].
  2:{ rewrite !count_writes_app. cbn [count_writes]. lia. }
  destruct ((processed st + 1) mod 5 =? 0) eqn:E.
  - destruct (_finalize_profiles pm). cbn [processed trace].
    rewrite !count_writes_app. cbn [count_writes]. apply Z.eqb_eq in E.
    split; [lia|]. rewrite H. Z.div_mod_to_equations. lia.
  - cbn [processed trace]. rewrite !count_writes_app. cbn [count_writes].
    apply Z.eqb_neq in E. split; [lia|]. rewrite H.
    Z.div_mod_to_equations. lia.
Qed.

Lemma visit_all_cadence min_profiles urls : forall st,
  0 <= processed st ->
  count_writes (trace st) = processed st / WRITE_PROGRESS_EVERY ->
  0 <= processed (visit_all OUTLET web base_url min_profiles urls st)
    <= processed st + Z.of_nat (List.length urls) /\
  count_writes (trace (visit_all OUTLET web base_url min_profiles urls st)) =
    processed (visit_all OUTLET web base_url min_profiles urls st)
      / WRITE_PROGRESS_EVERY.
Proof.
  induction urls as [|u r IH]; intros st H0 H.
  - cbn [visit_all List.length]. split; [lia | exact H].
  - cbn [visit_all]. destruct (_ >=? _).
    + split; [cbn [List.length]; lia | exact H].
    + destruct (visit_cadence u st H0 H) as [[A B] C].
      destruct (IH _ A C) as [[D E] F]. split; [|exact F].
      cbn [List.length]. lia.
Qed.

(** X11: [extract_profiles] writes one progress snapshot for every five
    pages it has processed, and processes no more pages than it has
    URLs. *)
Theorem extract_profiles_write_cadence (urls : list str) (min_profiles : Z) :
  count_writes
    (trace (visit_all OUTLET web base_url min_profiles urls start)) =
  processed (visit_all OUTLET web base_url min_profiles urls start)
    / WRITE_PROGRESS_EVERY /\
  0 <= processed (visit_all OUTLET web base_url min_profiles urls start)
    <= Z.of_nat (List.length urls).
Proof.
  destruct (visit_all_cadence min_profiles urls start) as [A B];
    [cbn; lia | reflexivity |].
  split; [exact B|]. cbn [processed start] in A. lia.
Qed.

End PipelineMore.

(** ** More on the crawler *)

Lemma before_query_no_query (s : str) : no_query (before_query s) = true.
Proof.
  unfold no_query. induction s as [|c r IH]; [reflexivity|].
  cbn [before_query]. destruct (c =? 63)%N eqn:E; [reflexivity|].
  cbn [forallb]. rewrite E, IH. reflexivity.
Qed.

Lemma set_add_NoDup (x : str) (l : list str) : NoDup l -> NoDup (set_add x l).
Proof.
  intros H. unfold set_add. destruct (str_in x l) eqn:E; [exact H|].
  apply NoDup_app; [exact H | constructor; [intros [] | constructor] |].
  intros a Ha [<- | []]. apply str_in_In in Ha. congruence.
Qed.

Lemma firstn_incl (A : Type) (n : nat) (l : list A) (x : A) :
  In x (firstn n l) -> In x l.
Proof.
  intros H. rewrite <- (firstn_skipn n l). apply in_or_app. left; exact H.
Qed.

Lemma firstn_NoDup (A : Type) (n : nat) (l : list A) :
  NoDup l -> NoDup (firstn n l).
Proof.
  intros H. rewrite <- (firstn_skipn n l) in H.
  eapply NoDup_app_remove_r; exact H.
Qed.

Lemma seed_urls_length urljoin base l us :
  seed_urls urljoin base l = Some us -> List.length us = List.length l.
Proof.
  revert us. induction l as [|s r IH]; intros us; cbn [seed_urls].
  - intros E; injection E as <-. reflexivity.
  - destruct (urljoin base s); [|discriminate].
    destruct (seed_urls urljoin base r) as [us'|]; [|discriminate].
    intros E; injection E as <-. cbn [List.length]. rewrite (IH us' eq_refl).
    reflexivity.
Qed.

Section CrawlerMore.
Variable urljoin : str -> str -> option str.
Variable urlparse : str -> option url_parts.
Variable web : site.

Lemma scan_anchor_inv domain Q url seen_now href st :
  kept_by_add urlparse domain Q -> Q (fst st) ->
  Q (fst (fst (scan_anchor urljoin urlparse domain url seen_now href st))).
Proof.
  intros HQ. destruct st as [links queue]. cbn [fst]. intros H.
  unfold scan_anchor.
  destruct (is_empty href); [exact H|].
  destruct (urljoin url href) as [full|]; [|exact H].
  destruct (urlparse full) as [p|] eqn:Ep; [|exact H].
  destruct (contains domain (lower (netloc p))) eqn:Ec; cbn [negb];
    [|exact H].
  cbn [fst].
  destruct (dated_path (lower (path p)) ||
            any_in article_words (lower (path p))) eqn:Ea; [|exact H].
  apply (HQ links full p); assumption.
Qed.

Lemma scan_anchors_inv domain Q url seen_now l : forall st,
  kept_by_add urlparse domain Q -> Q (fst st) ->
  Q (fst (fst (scan_anchors urljoin urlparse domain url seen_now l st))).
Proof.
  induction l as [|href r IH]; intros st HQ H; [exact H|].
  cbn [scan_anchors].
  pose proof (scan_anchor_inv domain Q url seen_now href st HQ H) as H1.
  destruct (scan_anchor urljoin urlparse domain url seen_now href st)
    as [st' [|]]; cbn [fst] in *; [apply IH; assumption | exact H1].
Qed.

Lemma crawl_inv domain Q fuel : forall st out,
  kept_by_add urlparse domain Q -> Q (article_links st) ->
  crawl urljoin urlparse web fuel domain st = Some out -> Q out.
Proof.
  induction fuel as [|fuel IH]; intros st out HQ H; [discriminate|].
  cbn [crawl]. destruct (to_visit st) as [|url rest].
  { intros E; injection E as <-. exact H. }
  destruct (_ <=? _)%nat.
  { intros E; injection E as <-. exact H. }
  destruct (is_empty url || str_in url (seen st)); [apply IH; assumption|].
  destruct (negb (allowed_by_robots web url)); [apply IH; assumption|].
  destruct (get web url) as [|code soup]; [apply IH; assumption|].
  destruct (negb (code =? 200)); [apply IH; assumption|].
  pose proof (scan_anchors_inv domain Q url (seen st ++ [url]) (hrefs soup)
                (article_links st, rest) HQ H) as H1.
  destruct (scan_anchors _ _ _ _ _ _ _) as [[links queue] o].
  apply IH; assumption.
Qed.

(** X12: the list that [find_article_links] returns has at most
    [MAX_ARTICLE_URLS] (800) URLs, lists none twice, and none of them
    holds a question mark. *)
Theorem find_article_links_bounds (fuel : nat) (base_url : str)
    (out : list str) :
  find_article_links urljoin urlparse web fuel base_url = Returned out ->
  (List.length out <= MAX_ARTICLE_URLS)%nat /\ NoDup out /\
  Forall (fun u => no_query u = true) out.
Proof.
  unfold find_article_links.
  destruct (urlparse base_url) as [p0|]; [|discriminate].
  destruct (seed_urls urljoin base_url seeds) as [us|]; [|discriminate].
  destruct (crawl _ _ _ _ _ _) as [links|] eqn:Ec; [|discriminate].
  intros E.
  assert (Eo : out = firstn MAX_ARTICLE_URLS links)
    by (injection E; intros <-; reflexivity).
  rewrite Eo. clear E Eo.
  apply (crawl_inv (lower (netloc p0))
           (fun l => NoDup l /\ Forall (fun u => no_query u = true) l))
    in Ec.
  - destruct Ec as [N F]. split; [apply firstn_le_length|].
    split; [apply firstn_NoDup; exact N|].
    rewrite Forall_forall in *. intros u Hu. apply F.
    eapply firstn_incl; exact Hu.
  - intros links' full p [N F] _ _ _. split.
    + apply set_add_NoDup; exact N.
    + apply set_add_Forall; [exact F | apply before_query_no_query].
  - split; constructor.
Qed.

(** X13: every URL that [find_article_links] returns is a resolved
    anchor, cut at its query string, whose path, when it is ASCII, has in
    lower case a dated segment (four digits, then one or two, then one or
    two, between slashes) or holds one of the article words. *)
Theorem find_article_links_article_like (fuel : nat) (base_url : str)
    (out : list str) :
  find_article_links urljoin urlparse web fuel base_url = Returned out ->
  Forall (fun u => exists full p,
            u = before_query full /\ urlparse full = Some p /\
            (forallb is_ascii (path p) = true ->
             article_like (lower (path p)) = true)) out.
Proof.
  unfold find_article_links.
  destruct (urlparse base_url) as [p0|]; [|discriminate].
  destruct (seed_urls urljoin base_url seeds) as [us|]; [|discriminate].
  destruct (crawl _ _ _ _ _ _) as [links|] eqn:Ec; [|discriminate].
  intros E.
  assert (Eo : out = firstn MAX_ARTICLE_URLS links)
    by (injection E; intros <-; reflexivity).
  rewrite Eo. clear E Eo.
  apply (crawl_inv (lower (netloc p0))
           (Forall (fun u => exists full p,
                      u = before_query full /\ urlparse full = Some p /\
                      (forallb is_ascii (path p) = true ->
                       article_like (lower (path p)) = true))))
    in Ec.
  - rewrite Forall_forall in *. intros u Hu. apply Ec.
    eapply firstn_incl; exact Hu.
  - intros links' full p F Hp _ Ha.
    apply set_add_Forall; [exact F|]. exists full, p. auto.
  - constructor.
Qed.

Lemma crawl_unreachable domain fuel : forall st,
  (forall u, unreachable web u = true) ->
  article_links st = [] ->
  (List.length (to_visit st) < fuel)%nat ->
  crawl urljoin urlparse web fuel domain st = Some [].
Proof.
  induction fuel as [|fuel IH]; intros st Hdead Hl Hf; [lia|].
  cbn [crawl]. destruct (to_visit st) as [|url rest] eqn:Et.
  { rewrite Hl. reflexivity. }
  rewrite Hl. change (MAX_ARTICLE_URLS <=? List.length (@nil str))%nat
    with false. cbv iota.
  cbn [List.length] in Hf.
  assert (Hrest : forall s', crawl urljoin urlparse web fuel domain
                    {| to_visit := rest; seen := s'; article_links := [] |}
                  = Some []).
  { intros s'. apply IH; [exact Hdead | reflexivity | cbn [to_visit]; lia]. }
  destruct (is_empty url || str_in url (seen st)); [apply Hrest|].
  pose proof (Hdead url) as Hu. unfold unreachable in Hu.
  destruct (negb (allowed_by_robots web url)); [apply Hrest|].
  cbn [orb] in Hu.
  destruct (get web url) as [|code soup]; [apply Hrest|].
  rewrite Hu. apply Hrest.
Qed.

(** X14: when no page of the site can be fetched (robots disallow it, the
    request fails or the status is not 200) and the base URL and the
    seeds resolve, [find_article_links] returns the empty list after at
    most thirteen turns of its loop. *)
Theorem find_article_links_unreachable (fuel : nat) (base_url : str)
    (p0 : url_parts) (us : list str) :
  (forall u, unreachable web u = true) ->
  urlparse base_url = Some p0 ->
  seed_urls urljoin base_url seeds = Some us ->
  (13 <= fuel)%nat ->
  find_article_links urljoin urlparse web fuel base_url = Returned [].
Proof.
  intros Hdead Hp Hs Hf. unfold find_article_links. rewrite Hp, Hs.
  rewrite (crawl_unreachable (lower (netloc p0)) fuel); [reflexivity | | |].
  - exact Hdead.
  - reflexivity.
  - cbn [to_visit List.length]. rewrite (seed_urls_length _ _ _ _ Hs).
    cbn. lia.
Qed.

End CrawlerMore.

Lemma find_article_links_bounds_witness :
  (List.length [lit "https://notexample.com/news/1";
                lit "https://example.com/news/2"] <= MAX_ARTICLE_URLS)%nat /\
  NoDup [lit "https://notexample.com/news/1";
         lit "https://example.com/news/2"] /\
  Forall (fun u => no_query u = true)
    [lit "https://notexample.com/news/1"; lit "https://example.com/news/2"].
Proof.
  apply (find_article_links_bounds stub_urljoin stub_urlparse
           site_foreign_link 40 (lit "https://example.com")).
  vm_compute. reflexivity.
Defined.

Lemma find_article_links_article_like_witness :
  Forall (fun u => exists full p,
            u = before_query full /\ stub_urlparse full = Some p /\
            (forallb is_ascii (path p) = true ->
             article_like (lower (path p)) = true))
    [lit "https://notexample.com/news/1"; lit "https://example.com/news/2"].
Proof.
  apply (find_article_links_article_like stub_urljoin stub_urlparse
           site_foreign_link 40 (lit "https://example.com")).
  vm_compute. reflexivity.
Defined.

Lemma find_article_links_unreachable_witness :
  find_article_links stub_urljoin stub_urlparse dead_site 13
    (lit "https://example.com") = Returned [].
Proof.
  apply (find_article_links_unreachable stub_urljoin stub_urlparse dead_site
           13 (lit "https://example.com")
           {| netloc := lit "example.com"; path := [] |}
           (List.map (fun s => lit "https://example.com" ++ s) seeds)).
  - intros u. reflexivity.
  - reflexivity.
  - vm_compute. reflexivity.
  - apply Nat.le_refl.
Defined.

Lemma extract_profiles_obeys_robots_witness :
  In (Get (lit "/2"))
     (trace (visit_all None site_alice_alice_bob (lit "https://example.com")
               30 three_urls start)) /\
  allowed_by_robots site_alice_alice_bob (lit "/2") = true /\
  In (lit "/2") three_urls.
Proof.
  assert (H : In (Get (lit "/2"))
                (trace (visit_all None site_alice_alice_bob
                          (lit "https://example.com") 30 three_urls start)))
    by (vm_compute; tauto).
  split; [exact H|].
  exact (extract_profiles_obeys_robots None site_alice_alice_bob
           (lit "https://example.com") three_urls 30 (lit "/2") H).
Defined.

(** ** More on the checkpoint writer *)

Lemma dict_get_remove_other (V : Type) (k q : str) (d : dict V) :
  str_eqb q k = false -> dict_get q (dict_remove k d) = dict_get q d.
Proof.
  intros Hq. induction d as [|[k' v'] d' IH]; [reflexivity|].
  cbn [dict_remove]. destruct (str_eqb k k') eqn:E.
  - apply str_eqb_eq in E. subst k'. cbn [dict_get]. rewrite Hq. reflexivity.
  - cbn [dict_get]. rewrite IH. reflexivity.
Qed.

Lemma dict_set_set_fresh (V : Type) (k : str) (v v' : V) (d : dict V) :
  dict_get k d = None -> dict_set k v' (dict_set k v d) = dict_set k v' d.
Proof.
  induction d as [|[k0 v0] d' IH]; cbn [dict_get dict_set].
  - intros _. rewrite str_eqb_refl. reflexivity.
  - destruct (str_eqb k k0) eqn:E; [discriminate|].
    intros H. cbn [dict_set]. rewrite E, (IH H). reflexivity.
Qed.

Lemma dict_remove_set_fresh (V : Type) (k : str) (v : V) (d : dict V) :
  dict_get k d = None -> dict_remove k (dict_set k v d) = d.
Proof.
  induction d as [|[k0 v0] d' IH]; cbn [dict_get dict_set].
  - intros _. cbn [dict_remove]. rewrite str_eqb_refl. reflexivity.
  - destruct (str_eqb k k0) eqn:E; [discriminate|].
    intros H. cbn [dict_remove]. rewrite E, (IH H). reflexivity.
Qed.

Lemma str_eqb_sym (a b : str) : str_eqb a b = str_eqb b a.
Proof.
  destruct (str_eqb a b) eqn:E.
  - apply str_eqb_eq in E. subst. symmetry. apply str_eqb_refl.
  - symmetry. apply str_eqb_neq. apply str_eqb_neq in E. congruence.
Qed.

Section CheckpointerMore.
Variable abspath : str -> str.
Variable tmp_names : list str.
Variable raises : syscall -> bool.

(** Writing into one file keeps whatever holds of the disk and is kept by
    every append to that file, however the writing ends. *)
Lemma write_chunks_keeps call file (P : dict str -> Prop) chunks :
  (forall f c, P f -> P (append_file file c f)) ->
  forall k d,
    Forall P (observed d) -> P (files d) ->
    Forall P (observed (fst (write_chunks raises call file k chunks d))) /\
    P (files (fst (write_chunks raises call file k chunks d))).
Proof.
  intros Hstep. induction chunks as [|c r IH]; intros k d Ho Hf.
  - cbn [write_chunks fst]. auto.
  - cbn [write_chunks]. destruct (raises (call k)); [cbn [fst]; auto|].
    apply IH.
    + cbn [commit observed]. apply Forall_app. split; [exact Ho|].
      constructor; [apply Hstep; exact Hf | constructor].
    + cbn [commit files]. apply Hstep; exact Hf.
Qed.

(** When no write raises, the file grows by the whole text. *)
Lemma write_chunks_complete call file chunks :
  (forall k, raises (call k) = false) ->
  forall k d c0,
    dict_get file (files d) = Some c0 ->
    snd (write_chunks raises call file k chunks d) = Done /\
    dict_get file (files (fst (write_chunks raises call file k chunks d))) =
      Some (c0 ++ List.concat chunks).
Proof.
  intros Hok. induction chunks as [|c r IH]; intros k d c0 Hc.
  - cbn [write_chunks fst snd List.concat]. rewrite app_nil_r. auto.
  - cbn [write_chunks]. rewrite Hok.
    destruct (IH (S k) (commit (append_file file c (files d)) d) (c0 ++ c))
      as [A B].
    + cbn [commit files]. unfold append_file. rewrite Hc.
      apply dict_get_set_same.
    + split; [exact A|]. rewrite B. cbn [List.concat].
      rewrite app_assoc. reflexivity.
Qed.

(** The temporary file, fresh on the old disk, is all that the writes
    into it change. *)
Lemma write_chunks_tmp tmp f0 chunks :
  dict_get tmp f0 = None ->
  forall k d d' c0,
    files d = dict_set tmp c0 f0 ->
    write_chunks raises WriteTmp tmp k chunks d = (d', Done) ->
    files d' = dict_set tmp (c0 ++ List.concat chunks) f0.
Proof.
  intros Hfresh. induction chunks as [|c r IH]; intros k d d' c0 Hd.
  - cbn [write_chunks List.concat]. intros E; injection E as <-.
    rewrite app_nil_r. exact Hd.
  - cbn [write_chunks]. destruct (raises (WriteTmp k)); [discriminate|].
    intros E. apply (IH _ _ _ (c0 ++ c)) in E.
    + rewrite E. cbn [List.concat]. rewrite app_assoc. reflexivity.
    + cbn [commit files]. unfold append_file. rewrite Hd.
      rewrite dict_get_set_same. apply dict_set_set_fresh; exact Hfresh.
Qed.

Lemma tmp_path_done_files (path : str) (chunks : list str) (f0 : dict str) :
  snd (write_via_tmp abspath tmp_names raises path chunks (disk_of f0)) =
    Done ->
  files (_atomic_write_json abspath tmp_names raises path chunks
           (disk_of f0)) =
  dict_set path (List.concat chunks) f0.
Proof.
  unfold _atomic_write_json, write_via_tmp. cbn [files disk_of].
  destruct (raises Mkstemp); [discriminate|].
  destruct (mkstemp_inner (abspath (dir_of path)) tmp_names f0) as [tmp|] eqn:Em;
    [|discriminate].
  pose proof (mkstemp_inner_fresh _ _ _ _ Em) as Hfresh.
  destruct (write_chunks raises WriteTmp tmp 0 chunks
              (commit (dict_set tmp [] f0) (disk_of f0))) as [d2 o] eqn:Ew.
  destruct o; [|discriminate].
  apply (write_chunks_tmp tmp f0 chunks Hfresh 0%nat _ d2 []) in Ew;
    [|reflexivity].
  destruct (raises Fsync); [discriminate|].
  destruct (raises Replace); [discriminate|].
  intros _. cbn [commit files app] in *. unfold rename.
  rewrite Ew, dict_get_set_same, (dict_remove_set_fresh _ _ _ _ Hfresh).
  reflexivity.
Qed.

(** X15: when no step of the temporary-file path raises, the call leaves
    the disk as it found it but for the destination, which holds the
    whole new text: no temporary file remains and no other file is
    touched. *)
Theorem atomic_write_leaves_clean_disk (path : str) (chunks : list str)
    (f0 : dict str) :
  snd (write_via_tmp abspath tmp_names raises path chunks (disk_of f0)) =
    Done ->
  files (_atomic_write_json abspath tmp_names raises path chunks
           (disk_of f0)) =
  dict_set path (List.concat chunks) f0.
Proof.
  intros H. rewrite (tmp_path_done_files path chunks f0 H). reflexivity.
Qed.

(** X16: when the system calls of the handler do not raise, the call ends
    with the whole new text at the destination, whatever happened on the
    temporary-file path. *)
Theorem atomic_write_best_effort (path : str) (chunks : list str)
    (f0 : dict str) :
  raises OpenDest = false ->
  (forall k, raises (WriteDest k) = false) ->
  dict_get path
    (files (_atomic_write_json abspath tmp_names raises path chunks
              (disk_of f0))) = Some (List.concat chunks).
Proof.
  intros Ho Hw.
  destruct (write_via_tmp abspath tmp_names raises path chunks (disk_of f0))
    as [d' o] eqn:Ev.
  destruct o.
  - pose proof (tmp_path_done_files path chunks f0) as C.
    rewrite Ev in C. rewrite (C eq_refl). apply dict_get_set_same.
  - unfold _atomic_write_json. rewrite Ev. unfold write_direct. rewrite Ho.
    destruct (write_chunks_complete WriteDest path chunks Hw 0%nat
                (commit (dict_set path [] (files d')) d') [])
      as [_ B].
    + cbn [commit files]. apply dict_get_set_same.
    + exact B.
Qed.

(** X17: a file that is neither the destination nor the temporary file
    keeps its content in every state of the disk during the call,
    whichever path the call takes. *)
Theorem atomic_write_spares_other_files (path q : str) (chunks : list str)
    (f0 : dict str) :
  q <> path ->
  mkstemp_inner (abspath (dir_of path)) tmp_names f0 <> Some q ->
  Forall (fun f => dict_get q f = dict_get q f0)
    (observed (_atomic_write_json abspath tmp_names raises path chunks
                 (disk_of f0))).
Proof.
  intros Hqp Hqt.
  assert (Eqp : str_eqb q path = false) by (apply str_eqb_neq; exact Hqp).
  set (P := fun f : dict str => dict_get q f = dict_get q f0).
  assert (Hset : forall file c f, str_eqb q file = false -> P f ->
                                  P (dict_set file c f)).
  { intros file c f E Hf. unfold P in *.
    rewrite dict_get_set_other; assumption. }
  assert (Happ : forall file, str_eqb q file = false ->
                 forall f c, P f -> P (append_file file c f)).
  { intros file E f c Hf. unfold append_file. apply Hset; assumption. }
  assert (Hdirect : forall d, Forall P (observed d) -> P (files d) ->
                    Forall P (observed (write_direct raises path chunks d))).
  { intros d Hod Hfd. unfold write_direct.
    destruct (raises OpenDest); [exact Hod|].
    apply (write_chunks_keeps WriteDest path P chunks (Happ path Eqp)).
    - cbn [commit observed]. apply Forall_app. split; [exact Hod|].
      constructor; [apply Hset; assumption | constructor].
    - cbn [commit files]. apply Hset; assumption. }
  assert (H0 : Forall P (observed (disk_of f0)))
    by (constructor; [reflexivity | constructor]).
  unfold _atomic_write_json, write_via_tmp. cbn [files disk_of].
  destruct (raises Mkstemp); [apply Hdirect; [exact H0 | reflexivity]|].
  destruct (mkstemp_inner (abspath (dir_of path)) tmp_names f0) as [tmp|] eqn:Em;
    [|apply Hdirect; [exact H0 | reflexivity]].
  assert (Eqt : str_eqb q tmp = false).
  { apply str_eqb_neq. intros ->. apply Hqt. reflexivity. }
  set (d1 := commit (dict_set tmp [] f0) (disk_of f0)).
  assert (H1 : Forall P (observed d1) /\ P (files d1)).
  { unfold d1. cbn [commit observed files disk_of app]. split.
    - constructor; [reflexivity|].
      constructor; [apply Hset; [exact Eqt | reflexivity] | constructor].
    - apply Hset; [exact Eqt | reflexivity]. }
  destruct H1 as [Ho1 Hf1].
  pose proof (write_chunks_keeps WriteTmp tmp P chunks (Happ tmp Eqt)
                0%nat d1 Ho1 Hf1) as [Ho2 Hf2].
  destruct (write_chunks raises WriteTmp tmp 0 chunks d1) as [d2 o].
  cbn [fst] in Ho2, Hf2.
  destruct o; [|apply Hdirect; assumption].
  destruct (raises Fsync); [apply Hdirect; assumption|].
  destruct (raises Replace); [apply Hdirect; assumption|].
  cbn [commit observed]. apply Forall_app. split; [exact Ho2|].
  constructor; [|constructor].
  unfold P, rename in *. destruct (dict_get tmp (files d2)); [|exact Hf2].
  rewrite dict_get_set_other by exact Eqp.
  rewrite dict_get_remove_other by exact Eqt. exact Hf2.
Qed.

Lemma write_chunks_keeps_files call file (P : dict str -> Prop) chunks :
  (forall f c, P f -> P (append_file file c f)) ->
  forall k d,
    P (files d) ->
    P (files (fst (write_chunks raises call file k chunks d))).
Proof.
  intros Hstep. induction chunks as [|c r IH]; intros k d Hf.
  - exact Hf.
  - cbn [write_chunks]. destruct (raises (call k)); [exact Hf|].
    apply IH. cbn [commit files]. apply Hstep; exact Hf.
Qed.

(** X18: when the temporary file has been created and a later step of
    its path raises, the call leaves that file on the disk: nothing ever
    removes it. *)
Theorem atomic_write_leaks_tmp (path tmp : str) (chunks : list str)
    (f0 : dict str) :
  raises Mkstemp = false ->
  mkstemp_inner (abspath (dir_of path)) tmp_names f0 = Some tmp ->
  tmp <> path ->
  snd (write_via_tmp abspath tmp_names raises path chunks (disk_of f0)) =
    Raised ->
  dict_get tmp
    (files (_atomic_write_json abspath tmp_names raises path chunks
              (disk_of f0))) <> None.
Proof.
  intros Hm Em Htp.
  assert (Etp : str_eqb tmp path = false) by (apply str_eqb_neq; exact Htp).
  set (P := fun f : dict str => dict_get tmp f <> None).
  assert (Htmp : forall f c, P f -> P (append_file tmp c f)).
  { intros f c _. unfold P, append_file. rewrite dict_get_set_same.
    discriminate. }
  assert (Hdest : forall f c, P f -> P (append_file path c f)).
  { intros f c Hf. unfold P, append_file in *.
    rewrite dict_get_set_other; assumption. }
  assert (Hdirect : forall d, P (files d) ->
                    P (files (write_direct raises path chunks d))).
  { intros d Hfd. unfold write_direct.
    destruct (raises OpenDest); [exact Hfd|].
    apply (write_chunks_keeps_files WriteDest path P chunks Hdest).
    cbn [commit files]. unfold P in *.
    rewrite dict_get_set_other; assumption. }
  unfold _atomic_write_json, write_via_tmp. cbn [files disk_of].
  rewrite Hm, Em.
  set (d1 := commit (dict_set tmp [] f0) (disk_of f0)).
  assert (Hf1 : P (files d1)).
  { unfold P, d1. cbn [commit files]. rewrite dict_get_set_same.
    discriminate. }
  pose proof (write_chunks_keeps_files WriteTmp tmp P chunks Htmp
                0%nat d1 Hf1) as Hf2.
  destruct (write_chunks raises WriteTmp tmp 0 chunks d1) as [d2 o].
  cbn [fst] in Hf2.
  destruct o; [|intros _; apply Hdirect; exact Hf2].
  destruct (raises Fsync); [intros _; apply Hdirect; exact Hf2|].
  destruct (raises Replace); [intros _; apply Hdirect; exact Hf2|].
  discriminate.
Qed.

End CheckpointerMore.

Lemma atomic_write_leaves_clean_disk_witness :
  files (_atomic_write_json (fun p => p) [lit "k3x9"] no_failure data_file
           new_chunks (disk_of old_disk)) =
  dict_set data_file (List.concat new_chunks) old_disk.
Proof.
  apply (atomic_write_leaves_clean_disk (fun p => p) [lit "k3x9"] no_failure
           data_file new_chunks old_disk).
  reflexivity.
Defined.

Lemma atomic_write_best_effort_witness :
  dict_get data_file
    (files (_atomic_write_json (fun p => p) [lit "k3x9"] mkstemp_fails
              data_file new_chunks (disk_of old_disk))) =
  Some (List.concat new_chunks).
Proof.
  apply (atomic_write_best_effort (fun p => p) [lit "k3x9"] mkstemp_fails
           data_file new_chunks old_disk).
  - reflexivity.
  - intros k. reflexivity.
Defined.

Lemma atomic_write_spares_other_files_witness :
  Forall (fun f => dict_get (lit "/srv/newstrace/index.html") f =
                   dict_get (lit "/srv/newstrace/index.html") old_disk)
    (observed (_atomic_write_json (fun p => p) [lit "k3x9"] no_failure
                 data_file new_chunks (disk_of old_disk))).
Proof.
  apply (atomic_write_spares_other_files (fun p => p) [lit "k3x9"] no_failure
           data_file (lit "/srv/newstrace/index.html") new_chunks old_disk).
  - vm_compute. discriminate.
  - vm_compute. discriminate.
Defined.

Lemma atomic_write_leaks_tmp_witness :
  dict_get (lit "/srv/newstrace/.tmp_data_k3x9")
    (files (_atomic_write_json (fun p => p) [lit "k3x9"] replace_fails
              data_file new_chunks (disk_of old_disk))) <> None.
Proof.
  apply (atomic_write_leaks_tmp (fun p => p) [lit "k3x9"] replace_fails
           data_file (lit "/srv/newstrace/.tmp_data_k3x9") new_chunks
           old_disk).
  - reflexivity.
  - reflexivity.
  - vm_compute. discriminate.
  - reflexivity.
Defined.

(** ** The addresses that [detect_website] probes *)

Open Scope N_scope.








Open Scope Z_scope.

(** ** Entries are kept and counts never go down *)

Lemma persists_refl pm : persists pm pm.
Proof. intros k e H. exists e. split; [exact H|]. split; [reflexivity | lia]. Qed.

Lemma persists_trans a b c : persists a b -> persists b c -> persists a c.
Proof.
  intros H1 H2 k e H. destruct (H1 k e H) as (e1 & G1 & N1 & C1).
  destruct (H2 k e1 G1) as (e2 & G2 & N2 & C2).
  exists e2. split; [exact G2|]. split; [congruence | lia].
Qed.

Lemma persists_set key e0 e1 pm :
  dict_get key pm = Some e0 -> name e1 = name e0 ->
  articles_count e0 <= articles_count e1 ->
  persists pm (dict_set key e1 pm).
Proof.
  intros Hg Hn Hc k e H. destruct (str_eqb k key) eqn:E.
  - apply str_eqb_eq in E. subst k. rewrite Hg in H. injection H as <-.
    exists e1. split; [apply dict_get_set_same | auto].
  - exists e. rewrite dict_get_set_other by exact E.
    split; [exact H|]. split; [reflexivity | lia].
Qed.

Lemma persists_new key e1 pm :
  dict_get key pm = None -> persists pm (dict_set key e1 pm).
Proof.
  intros Hg k e H. destruct (str_eqb k key) eqn:E.
  - apply str_eqb_eq in E. subst k. congruence.
  - exists e. rewrite dict_get_set_other by exact E.
    split; [exact H|]. split; [reflexivity | lia].
Qed.

Lemma merge_author_persists url title pub_date section author pm :
  persists pm (fst (merge_author url title pub_date section author pm)).
Proof.
  unfold merge_author.
  destruct (is_empty (normalize_name author)); [apply persists_refl|].
  destruct (dict_get (lower (normalize_name author)) pm) as [e|] eqn:Eg.
  - destruct (is_empty section).
    + cbn [fst]. apply (persists_set _ e); [exact Eg | |];
        destruct (_prefer_newer _ _); simpl; lia || reflexivity.
    + cbn [beat_counts set_articles_count].
      destruct (beat_counts e) as [bc|]; cbn [fst].
      * apply (persists_set _ e); [exact Eg | |];
          destruct (_prefer_newer _ _); simpl; lia || reflexivity.
      * apply (persists_set _ e); [exact Eg | reflexivity | simpl; lia].
  - cbn [fst]. apply persists_new; exact Eg.
Qed.

Lemma merge_authors_persists url title pub_date section l : forall pm,
  persists pm (fst (merge_authors url title pub_date section l pm)).
Proof.
  induction l as [|a r IH]; intros pm; [apply persists_refl|].
  cbn [merge_authors].
  pose proof (merge_author_persists url title pub_date section a pm) as H1.
  destruct (merge_author url title pub_date section a pm) as [pm' [|]];
    cbn [fst] in *; [|exact H1].
  eapply persists_trans; [exact H1 | apply IH].
Qed.

Lemma finalize_entry_count (v : entry) :
  articles_count (fst (finalize_entry v)) = articles_count v.
Proof.
  unfold finalize_entry. destruct (_ || _); [reflexivity|].
  cbn [fst]. destruct (beat_counts v) as [[|x r]|]; reflexivity.
Qed.

Lemma finalize_loop_persists (pm : dict entry) :
  persists pm (fst (finalize_loop pm)).
Proof.
  induction pm as [|[k0 v0] rest IH]; [apply persists_refl|].
  intros k e. cbn [finalize_loop dict_get].
  pose proof (finalize_entry_name v0) as Hn.
  pose proof (finalize_entry_count v0) as Hc.
  destruct (finalize_entry v0) as [v' out].
  specialize (IH k e).
  destruct (finalize_loop rest) as [rest' ps]. cbn [fst dict_get] in *.
  destruct (str_eqb k k0).
  - intros H; injection H as <-. exists v'.
    split; [reflexivity|]. split; [exact Hn | lia].
  - exact IH.
Qed.

Lemma finalize_profiles_persists (pm : dict entry) :
  persists pm (fst (_finalize_profiles pm)).
Proof.
  pose proof (finalize_loop_persists pm) as H.
  unfold _finalize_profiles. destruct (finalize_loop pm). exact H.
Qed.

Section PipelinePersists.
Variable OUTLET : option str.
Variable web : site.
Variable base_url : str.

Lemma visit_persists url st :
  persists (profiles_map st)
           (profiles_map (visit OUTLET web base_url url st)).
Proof.
  unfold visit.
  destruct (negb (allowed_by_robots web url)); [apply persists_refl|].
  destruct (get web url) as [|code soup]; [apply persists_refl|].
  destruct (negb (code =? 200)); [apply persists_refl|].
  pose proof (merge_authors_persists url (page_title soup) (pub_date soup)
                (normalize_beat (section soup))
                (extract_authors (authors soup)) (profiles_map st)) as H1.
  destruct (merge_authors _ _ _ _ _ _) as [pm [|]]; cbn [fst] in H1.
  - destruct (_ =? 0); [|exact H1].
    pose proof (finalize_profiles_persists pm) as H2.
    destruct (_finalize_profiles pm). cbn [profiles_map fst] in *.
    eapply persists_trans; eassumption.
  - exact H1.
Qed.

(** X20: through any run of the loop of [extract_profiles], an entry of
    the profile map is never deleted, keeps its name, and its article
    count never goes down, progress writes and swallowed errors
    included. *)
Theorem visit_all_persists (min_profiles : Z) (urls : list str) (st : run) :
  persists (profiles_map st)
    (profiles_map (visit_all OUTLET web base_url min_profiles urls st)).
Proof.
  revert st. induction urls as [|u r IH]; intros st; [apply persists_refl|].
  cbn [visit_all]. destruct (_ >=? _); [apply persists_refl|].
  eapply persists_trans; [apply visit_persists | apply IH].
Qed.

End PipelinePersists.
